(** * Contract generator: the streaming client and the outline/anchor rules

    A shallow embedding of the React client of the contract generator
    (App.jsx, hooks/useEventSource.js, lib/api.js) as state-passing
    functions, with the properties of the streaming protocol proved on
    them.  The orchestrator that runs on the backend is not part of the
    client sources; the two properties about it are stated on a model that
    follows the written specification. *)

From Stdlib Require Import NArith String Ascii Bool Lia.
From Stdlib Require Import DecimalString.
From stdpp Require Import base list.

Set Default Proof Using "Type".
Local Open Scope N_scope.

(** ** JavaScript strings

    A JavaScript string is a sequence of UTF-16 code units.  Literals of the
    source are ASCII and are injected with [lit]. *)

Definition jsstring := list N.

Definition lit (s : string) : jsstring :=
  List.map N_of_ascii (list_ascii_of_string s).

Arguments lit : simpl never.

(** Truthiness of a string: only the empty string is falsy. *)
Definition truthy (s : jsstring) : bool :=
  match s with
  | [] => false
  | _ :: _ => true
  end.

(** [a || b] on strings. *)
Definition js_or (a b : jsstring) : jsstring :=
  if truthy a then a else b.

(** A value that may be [undefined] (or [null]); both are falsy. *)
Definition truthy_opt (o : option jsstring) : bool :=
  match o with
  | Some s => truthy s
  | None => false
  end.

(** [o || b] where [o] may be [undefined]. *)
Definition js_or_opt (o : option jsstring) (b : jsstring) : jsstring :=
  match o with
  | Some s => js_or s b
  | None => b
  end.

Fixpoint str_eqb (a b : jsstring) : bool :=
  match a, b with
  | [], [] => true
  | x :: a', y :: b' => N.eqb x y && str_eqb a' b'
  | _, _ => false
  end.

(** ECMAScript WhiteSpace and LineTerminator code points, the characters
    that [String.prototype.trim] strips. *)
Definition is_whitespace (c : N) : bool :=
  (c =? 9) || (c =? 10) || (c =? 11) || (c =? 12) || (c =? 13) || (c =? 32)
  || (c =? 160) || (c =? 5760)
  || ((8192 <=? c) && (c <=? 8202))
  || (c =? 8232) || (c =? 8233) || (c =? 8239) || (c =? 8287)
  || (c =? 12288) || (c =? 65279).

Fixpoint trimStart (s : jsstring) : jsstring :=
  match s with
  | [] => []
  | c :: s' => if is_whitespace c then trimStart s' else s
  end.

Definition trimEnd (s : jsstring) : jsstring :=
  rev (trimStart (rev s)).

Definition trim (s : jsstring) : jsstring :=
  trimEnd (trimStart s).

(** Number to string, for template literals. *)
Definition decimal (n : N) : jsstring :=
  lit (NilZero.string_of_uint (N.to_uint n)).

Arguments decimal : simpl never.

(** ** hooks/useEventSource.js: the stream manager *)

(** A record of one call of a caller-supplied handler; the hook's model keeps
    a ghost log of them, each with the EventSource whose listener made it. *)
Inductive Call : Type :=
| CallOpen
| CallChunk (data : jsstring)
| CallDone
| CallError (msg : jsstring)
| CallOnerror.

Definition is_error_call (c : Call) : bool :=
  match c with
  | CallError _ | CallOnerror => true
  | _ => false
  end.

(** An event that the browser fires at an EventSource: the native [open]
    and [error] events, and a server-sent event with its [event:] type and
    its data.  A native error is fatal when the browser gives up the
    connection (and sets readyState to CLOSED before it fires the event);
    otherwise the browser reconnects. *)
Inductive Event : Type :=
| EvOpen
| EvError (fatal : bool)
| EvMessage (type data : jsstring).

Section UseEventSource.

(** The caller's state, which the handlers update.  A handler also
    receives the clock reading at the time it runs ([Date.now()]). *)
Context {A : Type}.

(** The [handlers] object; every field is optional ([handlers = {}]). *)
Record Handlers : Type := {
  h_open : option (N -> A -> A);
  h_chunk : option (N -> jsstring -> A -> A);
  h_done : option (N -> A -> A);
  h_error : option (N -> jsstring -> A -> A);
  h_onerror : option (N -> A -> A)
}.

(** An EventSource object.  Its listeners are the closures that [start]
    registers; they are determined by the [handlers] they capture. *)
Record EventSource : Type := {
  es_url : jsstring;
  es_closed : bool;
  es_handlers : Handlers
}.

(** The two refs of the hook, the EventSource objects allocated so far
    (an object is named by its position), the caller's state and the
    ghost log of handler calls. *)
Record World : Type := {
  esRef : option nat;
  finishedRef : bool;
  sources : list EventSource;
  client : A;
  calls : list (nat * Call)
}.

Definition initial (a : A) : World :=
  {| esRef := None; finishedRef := false; sources := []; client := a; calls := [] |}.

Definition set_esRef (r : option nat) (w : World) : World :=
  {| esRef := r; finishedRef := finishedRef w; sources := sources w;
     client := client w; calls := calls w |}.

Definition set_finishedRef (b : bool) (w : World) : World :=
  {| esRef := esRef w; finishedRef := b; sources := sources w;
     client := client w; calls := calls w |}.

Definition set_sources (l : list EventSource) (w : World) : World :=
  {| esRef := esRef w; finishedRef := finishedRef w; sources := l;
     client := client w; calls := calls w |}.

(** [es.close()]: readyState becomes CLOSED; it never throws. *)
Definition close_es (e : EventSource) : EventSource :=
  {| es_url := es_url e; es_closed := true; es_handlers := es_handlers e |}.

Definition close (i : nat) (w : World) : World :=
  set_sources (alter close_es i (sources w)) w.

(** Calling a handler: it updates the caller's state, and the call is
    logged. *)
Definition invoke (es : nat) (c : Call) (f : A -> A) (w : World) : World :=
  {| esRef := esRef w; finishedRef := finishedRef w; sources := sources w;
     client := f (client w); calls := calls w ++ [(es, c)] |}.

(** [stop()] *)
Definition stop (w : World) : World :=
  let w := set_finishedRef true w in
  match esRef w with
  | Some i => set_esRef None (close i w)
  | None => w
  end.

(** [new EventSource(url)], with the listeners of [handlers].  The URL is
    taken to be one that the constructor accepts. *)
Definition new_EventSource (url : jsstring) (handlers : Handlers) : EventSource :=
  {| es_url := url; es_closed := false; es_handlers := handlers |}.

(** [start(url, handlers)] *)
Definition start (url : jsstring) (handlers : Handlers) (w : World) : World :=
  let w := stop w in
  let w := set_finishedRef false w in
  let es := length (sources w) in
  let w := set_sources (sources w ++ [new_EventSource url handlers]) w in
  set_esRef (Some es) w.

(** The listeners that [start] registers on the EventSource [es]; each
    is a closure over [es] and [handlers]. *)

(** ['open'], registered only if [handlers.open] *)
Definition on_open (es : nat) (handlers : Handlers) (now : N) (w : World) : World :=
  match h_open handlers with
  | Some f => invoke es CallOpen (f now) w
  | None => w
  end.

(** ['chunk'], registered only if [handlers.chunk] *)
Definition on_chunk (es : nat) (handlers : Handlers) (data : jsstring) (now : N)
    (w : World) : World :=
  match h_chunk handlers with
  | Some f => invoke es (CallChunk data) (f now data) w
  | None => w
  end.

(** ['done'], always registered *)
Definition on_done (es : nat) (handlers : Handlers) (now : N) (w : World) : World :=
  let w := set_finishedRef true w in
  let w := close es w in
  let w := set_esRef None w in
  match h_done handlers with
  | Some f => invoke es CallDone (f now) w
  | None => w
  end.

(** ['error'] listener, registered only if [handlers.error]; [data] is
    [e?.data], absent on a native error event. *)
Definition on_error (es : nat) (handlers : Handlers) (data : option jsstring) (now : N)
    (w : World) : World :=
  match h_error handlers with
  | Some f =>
      if finishedRef w then w
      else
        let msg := js_or_opt data (lit "Streaming error") in
        invoke es (CallError msg) (f now msg) w
  | None => w
  end.

(** [es.onerror], always set *)
Definition es_onerror (es : nat) (handlers : Handlers) (now : N) (w : World) : World :=
  if finishedRef w then w
  else
    match h_onerror handlers with
    | Some f => invoke es CallOnerror (f now) w
    | None => w
    end.

(** Firing an event at the EventSource [es] runs the listeners of the
    event's type in the order of their registration.  The ['error']
    listener was added before [onerror] was set, and both listen to the
    type [error], whether the event is native or sent by the server. *)
Definition fire (es : nat) (ev : Event) (now : N) (w : World) : World :=
  match sources w !! es with
  | None => w
  | Some e =>
      let handlers := es_handlers e in
      match ev with
      | EvOpen => on_open es handlers now w
      | EvError _ => es_onerror es handlers now (on_error es handlers None now w)
      | EvMessage type data =>
          if str_eqb type (lit "open") then on_open es handlers now w
          else if str_eqb type (lit "chunk") then on_chunk es handlers data now w
          else if str_eqb type (lit "done") then on_done es handlers now w
          else if str_eqb type (lit "error") then
            es_onerror es handlers now (on_error es handlers (Some data) now w)
          else w
      end
  end.

(** What the browser does: it fires nothing at an EventSource whose
    readyState is CLOSED, and it closes the EventSource itself before it
    fires a fatal error. *)
Definition dispatch (es : nat) (ev : Event) (now : N) (w : World) : World :=
  match sources w !! es with
  | None => w
  | Some e =>
      if es_closed e then w
      else
        match ev with
        | EvError true => fire es ev now (close es w)
        | _ => fire es ev now w
        end
  end.

(** A run of the hook: calls of [start] and [stop] by the component and
    events dispatched by the browser. *)
Inductive Op : Type :=
| OpStart (url : jsstring) (handlers : Handlers)
| OpStop
| OpDispatch (es : nat) (ev : Event) (now : N).

Definition run_op (w : World) (op : Op) : World :=
  match op with
  | OpStart url handlers => start url handlers w
  | OpStop => stop w
  | OpDispatch es ev now => dispatch es ev now w
  end.

Definition run (ops : list Op) (w : World) : World :=
  fold_left run_op ops w.


Definition is_open (i : nat) (w : World) : Prop :=
  exists e, sources w !! i = Some e /\ es_closed e = false.

Definition is_closed (i : nat) (w : World) : Prop :=
  exists e, sources w !! i = Some e /\ es_closed e = true.

Definition open_count (w : World) : nat :=
  length (filter (fun e => es_closed e = false) (sources w)).

(** Every EventSource that is not closed is the one in [esRef], and
    [esRef] holds an allocated object. *)
Definition tracked (w : World) : Prop :=
  (forall i e, sources w !! i = Some e -> es_closed e = false -> esRef w = Some i)
  /\ (forall i, esRef w = Some i -> (i < length (sources w))%nat).

Definition all_closed (w : World) : Prop :=
  forall i e, sources w !! i = Some e -> es_closed e = true.

(** The handler calls made by the listeners of the EventSource [i], and
    those that report an error. *)
Definition calls_of (i : nat) (w : World) : list Call :=
  (filter (fun c => c.1 = i) (calls w)).*2.



End UseEventSource.

Arguments Handlers : clear implicits.
Arguments EventSource : clear implicits.
Arguments World : clear implicits.
Arguments Op : clear implicits.

(** ** lib/api.js *)

(** A thrown JavaScript error object. *)
Record JsError : Type := {
  err_name : jsstring;
  err_message : jsstring
}.

(** [new Error(message)] *)
Definition new_Error (message : jsstring) : JsError :=
  {| err_name := lit "Error"; err_message := message |}.

(** [String(e)] on an error object ([Error.prototype.toString]). *)
Definition String_of_error (e : JsError) : jsstring :=
  if negb (truthy (err_name e)) then err_message e
  else if negb (truthy (err_message e)) then err_name e
  else err_name e ++ lit ": " ++ err_message e.

(** How an awaited call completes. *)
Inductive Completion (T : Type) : Type :=
| Return (v : T)
| Throw (e : JsError).

Arguments Return {T} v.
Arguments Throw {T} e.

(** The parsed body of a response, a JSON object, as far as the client
    reads it: the [jobId] property, absent when the object has none. *)
Record ParsedBody : Type := {
  body_jobId : option jsstring
}.

(** The body of a request: [JSON.stringify({ prompt })] or
    [JSON.stringify({ jobId })]. *)
Inductive RequestBody : Type :=
| JsonPrompt (prompt : jsstring)
| JsonJobId (jobId : jsstring).

Record Request : Type := {
  req_url : jsstring;
  req_method : jsstring;
  req_headers : list (jsstring * jsstring);
  req_body : RequestBody
}.

(** A response: its status and what [res.json()] completes with. *)
Record Response : Type := {
  res_status : N;
  res_json : Completion ParsedBody
}.

(** [res.ok]: the status is in the range 200-299. *)
Definition res_ok (res : Response) : bool :=
  (200 <=? res_status res) && (res_status res <=? 299).

(** How a [fetch] settles: rejected on a network failure, resolved with a
    response otherwise. *)
Inductive FetchSettled : Type :=
| Rejected (e : JsError)
| Resolved (res : Response).

(** [fetch(url, init)] sends one request. *)
Definition fetch (req : Request) (network : list Request) : list Request :=
  network ++ [req].

Definition json_headers : list (jsstring * jsstring) :=
  [(lit "Content-Type", lit "application/json")].

(** [`${x}`] for a value that may be [undefined]. *)
Definition template (o : option jsstring) : jsstring :=
  match o with
  | Some s => s
  | None => lit "undefined"
  end.

Section Api.

(** [import.meta.env.VITE_BACKEND_URL] *)
Variable VITE_BACKEND_URL : option jsstring.

Definition BACKEND_URL : jsstring :=
  js_or_opt VITE_BACKEND_URL (lit "http://localhost:8000").

(** [createJob(prompt)] up to its await: the request is sent. *)
Definition createJob_send (prompt : jsstring) (network : list Request) : list Request :=
  fetch {| req_url := BACKEND_URL ++ lit "/generate";
           req_method := lit "POST";
           req_headers := json_headers;
           req_body := JsonPrompt prompt |} network.

(** [createJob(prompt)] once the fetch has settled. *)
Definition createJob_settle (net : FetchSettled) : Completion ParsedBody :=
  match net with
  | Rejected e => Throw e
  | Resolved res =>
      if negb (res_ok res)
      then Throw (new_Error (lit "Generate failed: " ++ decimal (res_status res)))
      else res_json res
  end.

Definition createJob (prompt : jsstring) (net : FetchSettled) (network : list Request)
  : list Request * Completion ParsedBody :=
  (createJob_send prompt network, createJob_settle net).

(** [streamUrl(jobId)] *)
Definition streamUrl (jobId : option jsstring) : jsstring :=
  BACKEND_URL ++ lit "/stream/" ++ template jobId.

(** [stopJob(jobId)] up to its await. *)
Definition stopJob_send (jobId : jsstring) (network : list Request) : list Request :=
  fetch {| req_url := BACKEND_URL ++ lit "/stop";
           req_method := lit "POST";
           req_headers := json_headers;
           req_body := JsonJobId jobId |} network.

(** [stopJob(jobId)] once the fetch has settled; the response is not
    looked at. *)
Definition stopJob_settle (net : FetchSettled) : Completion unit :=
  match net with
  | Rejected e => Throw e
  | Resolved _ => Return tt
  end.

Definition stopJob (jobId : jsstring) (net : FetchSettled) (network : list Request)
  : list Request * Completion unit :=
  (stopJob_send jobId network, stopJob_settle net).

End Api.

(** ** App.jsx *)

(** The argument of a React state setter: a value, or a function of the
    previous state. *)
Inductive SetStateAction (T : Type) : Type :=
| Value (v : T)
| Updater (f : T -> T).

Arguments Value {T} v.
Arguments Updater {T} f.

Definition next_state {T : Type} (a : SetStateAction T) (prev : T) : T :=
  match a with
  | Value v => v
  | Updater f => f prev
  end.

(** The state of the component.  [jobId] is [None] for [null] (and for
    [undefined]). *)
Record AppState : Type := {
  prompt : jsstring;
  html : jsstring;
  jobId : option jsstring;
  isGenerating : bool;
  error : jsstring;
  startedAt : option N;
  finishedAt : option N
}.

(** The setters.  hooks/useLocalStorage.js, which provides [setPrompt] and
    [setHtml], is not among the sources; its setter is taken to follow the
    contract of React's [useState] setter, as the component calls it
    ([setHtml('')], [setHtml((prev) => prev + data)]). *)

Definition setPrompt (a : SetStateAction jsstring) (s : AppState) : AppState :=
  {| prompt := next_state a (prompt s); html := html s; jobId := jobId s;
     isGenerating := isGenerating s; error := error s;
     startedAt := startedAt s; finishedAt := finishedAt s |}.

Definition setHtml (a : SetStateAction jsstring) (s : AppState) : AppState :=
  {| prompt := prompt s; html := next_state a (html s); jobId := jobId s;
     isGenerating := isGenerating s; error := error s;
     startedAt := startedAt s; finishedAt := finishedAt s |}.

Definition setJobId (a : SetStateAction (option jsstring)) (s : AppState) : AppState :=
  {| prompt := prompt s; html := html s; jobId := next_state a (jobId s);
     isGenerating := isGenerating s; error := error s;
     startedAt := startedAt s; finishedAt := finishedAt s |}.

Definition setIsGenerating (a : SetStateAction bool) (s : AppState) : AppState :=
  {| prompt := prompt s; html := html s; jobId := jobId s;
     isGenerating := next_state a (isGenerating s); error := error s;
     startedAt := startedAt s; finishedAt := finishedAt s |}.

Definition setError (a : SetStateAction jsstring) (s : AppState) : AppState :=
  {| prompt := prompt s; html := html s; jobId := jobId s;
     isGenerating := isGenerating s; error := next_state a (error s);
     startedAt := startedAt s; finishedAt := finishedAt s |}.

Definition setStartedAt (a : SetStateAction (option N)) (s : AppState) : AppState :=
  {| prompt := prompt s; html := html s; jobId := jobId s;
     isGenerating := isGenerating s; error := error s;
     startedAt := next_state a (startedAt s); finishedAt := finishedAt s |}.

Definition setFinishedAt (a : SetStateAction (option N)) (s : AppState) : AppState :=
  {| prompt := prompt s; html := html s; jobId := jobId s;
     isGenerating := isGenerating s; error := error s;
     startedAt := startedAt s; finishedAt := next_state a (finishedAt s) |}.

(** The four handlers that [handleGenerate] passes to [es.start]. *)

(** [chunk: (data) => setHtml((prev) => prev + data)] *)
Definition chunk_handler (data : jsstring) (s : AppState) : AppState :=
  setHtml (Updater (fun prev => prev ++ data)) s.

(** [error: (msg) => setError((prev) => prev || msg || 'Streaming error')];
    [msg] is [None] when the handler is called without a message. *)
Definition error_handler (msg : option jsstring) (s : AppState) : AppState :=
  setError (Updater (fun prev => js_or prev (js_or_opt msg (lit "Streaming error")))) s.

(** [done: () => { setIsGenerating(false); setFinishedAt(Date.now()) }] *)
Definition done_handler (now : N) (s : AppState) : AppState :=
  setFinishedAt (Value (Some now)) (setIsGenerating (Value false) s).

(** [onerror: () => { setError((prev) => prev || 'Connection lost while
    streaming.'); setIsGenerating(false); setFinishedAt(Date.now()) }] *)
Definition onerror_handler (now : N) (s : AppState) : AppState :=
  setFinishedAt (Value (Some now))
    (setIsGenerating (Value false)
       (setError (Updater (fun prev => js_or prev (lit "Connection lost while streaming."))) s)).

Definition stream_handlers : Handlers AppState :=
  {| h_open := None;
     h_chunk := Some (fun _ data => chunk_handler data);
     h_done := Some done_handler;
     h_error := Some (fun _ msg => error_handler (Some msg));
     h_onerror := Some onerror_handler |}.

(** The page: the component with its stream manager, and the requests
    that it has made with [fetch] so far, in order.  The connection of an
    EventSource is not among them: the browser opens it when the
    EventSource is created, and again when it reconnects; the EventSources
    created so far, with their URLs, are the [sources] of the hook. *)
Record Page : Type := {
  hook : World AppState;
  network : list Request
}.

Definition state (p : Page) : AppState := client (hook p).

Definition set_state (f : AppState -> AppState) (p : Page) : Page :=
  {| hook := {| esRef := esRef (hook p); finishedRef := finishedRef (hook p);
                sources := sources (hook p); client := f (client (hook p));
                calls := calls (hook p) |};
     network := network p |}.

Definition with_es (f : World AppState -> World AppState) (p : Page) : Page :=
  {| hook := f (hook p); network := network p |}.

Definition with_network (f : list Request -> list Request) (p : Page) : Page :=
  {| hook := hook p; network := f (network p) |}.

Section App.

Variable VITE_BACKEND_URL : option jsstring.

(** An async function runs up to its [await] and is resumed when the
    awaited request settles; anything may happen in between.  The first
    half returns whether the function is suspended. *)

(** [handleGenerate()] up to [await createJob(prompt)] *)
Definition handleGenerate_begin (now : N) (p : Page) : Page * bool :=
  if negb (truthy (trim (prompt (state p)))) then
    (set_state (setError (Value (lit "Please describe the business context first."))) p,
     false)
  else
    let p1 := set_state (setError (Value [])) p in
    let p2 := set_state (setHtml (Value [])) p1 in
    let p3 := set_state (setFinishedAt (Value None)) p2 in
    let p4 := set_state (setIsGenerating (Value true)) p3 in
    let p5 := set_state (setStartedAt (Value (Some now))) p4 in
    (with_network (createJob_send VITE_BACKEND_URL (prompt (state p))) p5, true).

(** [handleGenerate()] from the point where [createJob] has settled *)
Definition handleGenerate_resume (net : FetchSettled) (now : N) (p : Page) : Page :=
  match createJob_settle net with
  | Return body =>
      let jobId := body_jobId body in
      let p1 := set_state (setJobId (Value jobId)) p in
      with_es (start (streamUrl VITE_BACKEND_URL jobId) stream_handlers) p1
  | Throw e =>
      let p1 := set_state (setError (Value (js_or (err_message e) (String_of_error e)))) p in
      let p2 := set_state (setIsGenerating (Value false)) p1 in
      let p3 := set_state (setFinishedAt (Value (Some now))) p2 in
      with_es stop p3
  end.

(** [handleStop()] up to [await stopJob(jobId)] *)
Definition handleStop_begin (p : Page) : Page * bool :=
  match jobId (state p) with
  | Some j =>
      if negb (truthy j) then (p, false)
      else (with_network (stopJob_send VITE_BACKEND_URL j) p, true)
  | None => (p, false)
  end.

(** [handleStop()] from the point where [stopJob] has settled;
    [try { await stopJob(jobId) } catch {}] goes on either way. *)
Definition handleStop_resume (net : FetchSettled) (now : N) (p : Page) : Page :=
  let p1 :=
    match stopJob_settle net with
    | Return _ => p
    | Throw _ => p
    end in
  let p2 := with_es stop p1 in
  let p3 := set_state (setIsGenerating (Value false)) p2 in
  set_state (setFinishedAt (Value (Some now))) p3.

(** The browser delivers events of the stream to the page. *)
Definition deliver (es : nat) (ev : Event) (now : N) (p : Page) : Page :=
  with_es (dispatch es ev now) p.

Definition deliver_chunks (es : nat) (chunks : list (jsstring * N)) (p : Page) : Page :=
  fold_left (fun p c => deliver es (EvMessage (lit "chunk") c.1) c.2 p) chunks p.





(** What can happen to the page: the user types a prompt or clicks a
    button, a request settles and resumes the function that awaits it,
    the browser dispatches an event of a stream. *)
Inductive Action : Type :=
| PromptTyped (text : jsstring)
| GenerateClicked (now : N)
| CreateJobSettled (net : FetchSettled) (now : N)
| StopClicked
| StopJobSettled (net : FetchSettled) (now : N)
| StreamEvent (es : nat) (ev : Event) (now : N).

Definition act (p : Page) (a : Action) : Page :=
  match a with
  | PromptTyped text => set_state (setPrompt (Value text)) p
  | GenerateClicked now => (handleGenerate_begin now p).1
  | CreateJobSettled net now => handleGenerate_resume net now p
  | StopClicked => (handleStop_begin p).1
  | StopJobSettled net now => handleStop_resume net now p
  | StreamEvent es ev now => deliver es ev now p
  end.

Definition acts (l : list Action) (p : Page) : Page :=
  fold_left act l p.

(** The page when the component mounts; the prompt and the HTML come
    from local storage. *)
Definition mount (prompt html : jsstring) : Page :=
  {| hook := initial {| prompt := prompt; html := html; jobId := None;
                        isGenerating := false; error := [];
                        startedAt := None; finishedAt := None |};
     network := [] |}.


(** Every EventSource of the page was created by [handleGenerate], with
    its handlers. *)
Definition handlers_ok (l : list (EventSource AppState)) : Prop :=
  forall i e, l !! i = Some e -> es_handlers e = stream_handlers.

Definition page_ok (p : Page) : Prop :=
  tracked (hook p) /\ handlers_ok (sources (hook p)).

End App.




(** ** A scenario

    The example of the README: a prompt, the response of [POST /generate],
    and a stream of two chunks followed by [done]. *)

Definition demo_page : Page :=
  mount (lit "NDA for a UK pilot between Provider and Customer") (lit "<p>old</p>").

Definition demo_response : FetchSettled :=
  Resolved {| res_status := 200;
              res_json := Return {| body_jobId := Some (lit "186a842963e0") |} |}.


Definition demo_session : list Action :=
  [GenerateClicked 1; CreateJobSettled demo_response 2;
   StreamEvent 0 (EvMessage (lit "chunk") (lit "<h1>NDA</h1>")) 3;
   StreamEvent 0 (EvMessage (lit "progress") (lit "sections_done")) 3;
   StreamEvent 0 (EvMessage (lit "chunk") (lit "<p>1. Scope</p>")) 4;
   StreamEvent 0 (EvMessage (lit "done") []) 5].

(** The hook used with [handlers = {}], started twice. *)
Definition no_handlers : Handlers unit :=
  {| h_open := None; h_chunk := None; h_done := None; h_error := None; h_onerror := None |}.

Definition started_twice : World unit :=
  run [OpStart (lit "/stream/a") no_handlers; OpStart (lit "/stream/b") no_handlers]
      (initial tt).

(** A prompt of a space, a tab, a line feed and a no-break space. *)
Definition blank_page : Page :=
  mount [32; 9; 10; 160] (lit "<p>old</p>").

(** ** The pipeline orchestrator *)

Module Orchestrator.

(** Modelled from the spec: the pipeline orchestrator of the backend
    (backend/contract_pipeline_v3.py and its config.py) is not among the
    sources.  The model follows sections 4.2 and 5 of the specification:
    the six stages in their fixed order, the enforcement of the section
    count on the outline, the anchor section drafted first and alone, and
    the remaining sections drafted by a pool of bounded size whose
    interleaving is chosen by a schedule.  Cancellation and timeouts, which
    only cut a run short, are left out. *)

Record Config : Type := {
  outline_min : nat;
  outline_max : nat;
  max_parallel : nat;
  section_retries : nat
}.

(** The configured section count of the specification, 10 to 16. *)
Definition spec_config (parallel retries : nat) : Config :=
  {| outline_min := 10; outline_max := 16;
     max_parallel := parallel; section_retries := retries |}.

Record SectionDescriptor : Type := {
  sd_index : nat;
  sd_title : jsstring
}.

(** A test double of the Generation Service: its reply to each stage call,
    [None] for a failure; the reply to a section draft depends on the
    section and on the attempt. *)
Record GenerationService : Type := {
  gen_infer : nat -> option jsstring;
  gen_guidance : option jsstring;
  gen_outline : option (list SectionDescriptor);
  gen_first_part : option jsstring;
  gen_section : nat -> nat -> option jsstring;
  gen_qc : option jsstring
}.

Inductive Stage : Type :=
| Infer
| Guidance
| Outline
| FirstPart
| Draft (index : nat)
| QcFix.

(** The fields of the PipelineContext. *)
Inductive Field : Type :=
| FVariables
| FGuidance
| FOutline
| FFrontMatter
| FAnchor
| FSection (index : nat)
| FFinal.

(** What the test double and the context record, in the order in which it
    happens: a call of the Generation Service is initiated, a field of the
    context is published. *)
Inductive Entry : Type :=
| Called (s : Stage)
| Published (f : Field).

Inductive Status : Type :=
| JobPending
| JobRunning
| JobDone
| JobError
| JobStopped.

Record PipelineContext : Type := {
  variables : option jsstring;
  guidance_notes : option jsstring;
  outline : option (list SectionDescriptor);
  front_matter : option jsstring;
  anchor : option (nat * jsstring);
  sections : list (nat * jsstring);
  final_html : option jsstring
}.

Definition empty_context : PipelineContext :=
  {| variables := None; guidance_notes := None; outline := None; front_matter := None;
     anchor := None; sections := []; final_html := None |}.

Record Job : Type := {
  status : Status;
  context : PipelineContext;
  log : list Entry
}.

(** Modelled from the spec: stage 3 of the orchestrator, which is not
    among the sources.  The section count is enforced: a surplus is cut off
    at the end; a deficiency fails the job, the outline is not padded. *)
Definition enforce_outline_count (cfg : Config) (o : list SectionDescriptor)
  : option (list SectionDescriptor) :=
  if (length o <? outline_min cfg)%nat then None
  else Some (take (outline_max cfg) o).

(** Modelled from the spec: the choice of the anchor in stage 5 of the
    orchestrator, which is not among the sources.  The anchor is the first
    section of the outline, or the second when the first is a literal
    "Definitions" section.  Sections are named by their position in the
    outline. *)
Definition select_anchor (o : list SectionDescriptor) : option nat :=
  match o with
  | [] => None
  | d :: rest =>
      if str_eqb (sd_title d) (lit "Definitions") then
        match rest with
        | [] => None
        | _ :: _ => Some 1%nat
        end
      else Some 0%nat
  end.

(** The sections other than the anchor, in outline order. *)
Definition remaining (a : nat) (o : list SectionDescriptor) : list nat :=
  filter (fun i => i <> a) (seq 0 (length o)).

(** One section drafted on its own, with the bounded retry: the calls it
    makes and its result. *)
Fixpoint draft_alone (svc : GenerationService) (i attempt retries : nat)
  : list Entry * option jsstring :=
  match gen_section svc i attempt with
  | Some html => ([Called (Draft i)], Some html)
  | None =>
      match retries with
      | O => ([Called (Draft i)], None)
      | S r =>
          let rest := draft_alone svc i (S attempt) r in
          (Called (Draft i) :: rest.1, rest.2)
      end
  end.

(** The fan-out: tasks waiting for a slot, tasks whose call is in flight,
    the result slots, and the sections given up. *)
Record Task : Type := {
  task_section : nat;
  task_attempt : nat
}.

Record Pool : Type := {
  pending : list nat;
  running : list Task;
  results : list (nat * jsstring);
  unrecoverable : list nat;
  pool_log : list Entry
}.

(** Waiting tasks take the free slots, in outline order; a task that starts
    initiates its draft call. *)
Fixpoint fill (cap : nat) (waiting : list nat) (inflight : list Task) (l : list Entry)
  : list nat * list Task * list Entry :=
  match waiting with
  | [] => ([], inflight, l)
  | i :: rest =>
      if (length inflight <? cap)%nat then
        fill cap rest (inflight ++ [ {| task_section := i; task_attempt := 0 |} ])
             (l ++ [Called (Draft i)])
      else (waiting, inflight, l)
  end.

Definition fill_pool (cfg : Config) (p : Pool) : Pool :=
  let r := fill (max_parallel cfg) (pending p) (running p) (pool_log p) in
  {| pending := r.1.1; running := r.1.2; results := results p;
     unrecoverable := unrecoverable p; pool_log := r.2 |}.

(** The call of one task in flight returns; the schedule chooses which.  A
    success fills the result slot; a failure is retried within the bound,
    and beyond it the section is given up; the siblings go on. *)
Definition complete (cfg : Config) (svc : GenerationService) (choice : nat) (p : Pool) : Pool :=
  let k := (choice mod length (running p))%nat in
  match running p !! k with
  | None => p
  | Some t =>
      let i := task_section t in
      match gen_section svc i (task_attempt t) with
      | Some html =>
          {| pending := pending p; running := delete k (running p);
             results := results p ++ [(i, html)];
             unrecoverable := unrecoverable p;
             pool_log := pool_log p ++ [Published (FSection i)] |}
      | None =>
          if (task_attempt t <? section_retries cfg)%nat then
            {| pending := pending p;
               running := <[k := {| task_section := i; task_attempt := S (task_attempt t) |}]>
                            (running p);
               results := results p;
               unrecoverable := unrecoverable p;
               pool_log := pool_log p ++ [Called (Draft i)] |}
          else
            {| pending := pending p; running := delete k (running p);
               results := results p;
               unrecoverable := unrecoverable p ++ [i];
               pool_log := pool_log p |}
      end
  end.

(** Modelled from the spec: the parallel fan-out of stage 5 of the
    orchestrator, which is not among the sources.  The pool runs along the
    schedule until nothing is in flight. *)
Fixpoint fan_out (cfg : Config) (svc : GenerationService) (sched : list nat) (p : Pool) : Pool :=
  let p := fill_pool cfg p in
  match running p with
  | [] => p
  | _ :: _ =>
      match sched with
      | [] => p
      | choice :: sched' => fan_out cfg svc sched' (complete cfg svc choice p)
      end
  end.

Definition set_variables (v : jsstring) (c : PipelineContext) : PipelineContext :=
  {| variables := Some v; guidance_notes := guidance_notes c; outline := outline c;
     front_matter := front_matter c; anchor := anchor c; sections := sections c;
     final_html := final_html c |}.

Definition set_guidance (v : jsstring) (c : PipelineContext) : PipelineContext :=
  {| variables := variables c; guidance_notes := Some v; outline := outline c;
     front_matter := front_matter c; anchor := anchor c; sections := sections c;
     final_html := final_html c |}.

Definition set_outline (v : list SectionDescriptor) (c : PipelineContext) : PipelineContext :=
  {| variables := variables c; guidance_notes := guidance_notes c; outline := Some v;
     front_matter := front_matter c; anchor := anchor c; sections := sections c;
     final_html := final_html c |}.

Definition set_front_matter (v : jsstring) (c : PipelineContext) : PipelineContext :=
  {| variables := variables c; guidance_notes := guidance_notes c; outline := outline c;
     front_matter := Some v; anchor := anchor c; sections := sections c;
     final_html := final_html c |}.

Definition set_anchor (a : nat) (v : jsstring) (c : PipelineContext) : PipelineContext :=
  {| variables := variables c; guidance_notes := guidance_notes c; outline := outline c;
     front_matter := front_matter c; anchor := Some (a, v); sections := sections c;
     final_html := final_html c |}.

Definition set_sections (v : list (nat * jsstring)) (c : PipelineContext) : PipelineContext :=
  {| variables := variables c; guidance_notes := guidance_notes c; outline := outline c;
     front_matter := front_matter c; anchor := anchor c; sections := v;
     final_html := final_html c |}.

Definition set_final (v : jsstring) (c : PipelineContext) : PipelineContext :=
  {| variables := variables c; guidance_notes := guidance_notes c; outline := outline c;
     front_matter := front_matter c; anchor := anchor c; sections := sections c;
     final_html := Some v |}.

Definition job (s : Status) (c : PipelineContext) (l : list Entry) : Job :=
  {| status := s; context := c; log := l |}.

(** Stage 6 *)
Definition stage_qc (svc : GenerationService) (c : PipelineContext) (l : list Entry) : Job :=
  let l := l ++ [Called QcFix] in
  match gen_qc svc with
  | None => job JobError c l
  | Some html => job JobDone (set_final html c) (l ++ [Published FFinal])
  end.

(** Modelled from the spec: stage 5 of the orchestrator, which is not
    among the sources.  The anchor is drafted first and alone and published;
    then the remaining sections are handed to the pool; the job fails when a
    section stays unrecoverable, and goes on to stage 6 otherwise. *)
Definition stage_sections (cfg : Config) (svc : GenerationService) (sched : list nat)
    (o : list SectionDescriptor) (c : PipelineContext) (l : list Entry) : Job :=
  match select_anchor o with
  | None => job JobError c l
  | Some a =>
      let d := draft_alone svc a 0 (section_retries cfg) in
      let l := l ++ d.1 in
      match d.2 with
      | None => job JobError c l
      | Some html =>
          let c := set_anchor a html c in
          let l := l ++ [Published FAnchor] in
          let p := fan_out cfg svc sched
                     {| pending := remaining a o; running := []; results := [];
                        unrecoverable := []; pool_log := [] |} in
          let l := l ++ pool_log p in
          let c := set_sections (results p) c in
          match pending p, running p with
          | [], [] =>
              match unrecoverable p with
              | [] => stage_qc svc c l
              | _ :: _ => job JobError c l
              end
          | _, _ => job JobRunning c l
          end
      end
  end.

(** Modelled from the spec: stages 3 and 4 of the orchestrator, which is
    not among the sources.  The outline is published once its section count
    is enforced; a failure of either stage is fatal. *)
Definition stage_outline (cfg : Config) (svc : GenerationService) (sched : list nat)
    (c : PipelineContext) (l : list Entry) : Job :=
  let l := l ++ [Called Outline] in
  match gen_outline svc with
  | None => job JobError c l
  | Some o0 =>
      match enforce_outline_count cfg o0 with
      | None => job JobError c l
      | Some o =>
          let c := set_outline o c in
          let l := l ++ [Published FOutline; Called FirstPart] in
          match gen_first_part svc with
          | None => job JobError c l
          | Some fm =>
              stage_sections cfg svc sched o (set_front_matter fm c)
                             (l ++ [Published FFrontMatter])
          end
      end
  end.

(** Stage 2 *)
Definition stage_guidance (cfg : Config) (svc : GenerationService) (sched : list nat)
    (c : PipelineContext) (l : list Entry) : Job :=
  let l := l ++ [Called Guidance] in
  match gen_guidance svc with
  | None => job JobError c l
  | Some g => stage_outline cfg svc sched (set_guidance g c) (l ++ [Published FGuidance])
  end.

(** Modelled from the spec: the pipeline of the orchestrator, which is not
    among the sources, from stage 1; a failure to parse the inferred
    variables is retried once, a second failure is fatal. *)
Definition run_pipeline (cfg : Config) (svc : GenerationService) (sched : list nat) : Job :=
  let next v l :=
    stage_guidance cfg svc sched (set_variables v empty_context) (l ++ [Published FVariables]) in
  match gen_infer svc 0 with
  | Some v => next v [Called Infer]
  | None =>
      match gen_infer svc 1 with
      | Some v => next v [Called Infer; Called Infer]
      | None => job JobError empty_context [Called Infer; Called Infer]
      end
  end.

(** The call of [e] is initiated, or the field is published, strictly
    before the position at which the log splits into [before] and the
    rest. *)
Definition happened (e : Entry) (before : list Entry) : Prop := e ∈ before.

(** No section draft is called in [l]. *)
Definition no_draft (l : list Entry) : Prop :=
  Forall (fun e => forall i, e <> Called (Draft i)) l.

(** The pool has nothing to do with the section [a]. *)
Definition pool_avoids (a : nat) (p : Pool) : Prop :=
  Forall (fun i => i <> a) (pending p)
  /\ Forall (fun t => task_section t <> a) (running p)
  /\ Forall (fun e => e <> Called (Draft a)) (pool_log p).

(** The part of a log written by stage 5 when [a] is the anchor: the draft
    calls of the anchor come first; if they succeed the anchor is
    published; only then comes anything else, and no call for the anchor
    is among it. *)
Definition anchor_first (a : nat) (tail : list Entry) : Prop :=
  exists n rest,
    tail = replicate (S n) (Called (Draft a)) ++ rest
    /\ (rest = []
        \/ exists rest', rest = Published FAnchor :: rest'
                         /\ Forall (fun e => e <> Called (Draft a)) rest').

(** The part of a log written by stages 1 and 2. *)
Definition early (l : list Entry) : Prop :=
  Forall (fun e => e = Called Infer \/ e = Published FVariables
                   \/ e = Called Guidance \/ e = Published FGuidance) l.

(** A stub service that answers every call, with an outline of [n]
    sections. *)
Definition stub_outline (n : nat) : list SectionDescriptor :=
  (fun i => {| sd_index := i; sd_title := lit "Section" |}) <$> seq 0 n.

Definition stub_service (n : nat) : GenerationService :=
  {| gen_infer := fun _ => Some (lit "{}");
     gen_guidance := Some (lit "notes");
     gen_outline := Some (stub_outline n);
     gen_first_part := Some (lit "<section id='front-matter'></section>");
     gen_section := fun _ _ => Some (lit "<section></section>");
     gen_qc := Some (lit "<article></article>") |}.

End Orchestrator.

(** A run of the pipeline with the stub service, twelve sections, at most
    three drafts in flight; the log split at the first call of a section
    that is not the anchor. *)
Definition demo_job : Orchestrator.Job :=
  Orchestrator.run_pipeline (Orchestrator.spec_config 3 2) (Orchestrator.stub_service 12)
    [0; 1; 2; 0; 5; 1; 0; 0; 0; 3; 3; 3; 3; 3]%nat.

Definition demo_before : list Orchestrator.Entry :=
  take 10 (Orchestrator.log demo_job).

Definition demo_after : list Orchestrator.Entry :=
  drop 11 (Orchestrator.log demo_job).

(** ** Traces of the page *)






(** *** Two more scenarios *)





(** A stream that the browser has closed after a fatal error: nothing is
    open, and [esRef] still holds the EventSource. *)
Definition failed_stream : World unit :=
  run [OpStart (lit "/stream/a") no_handlers; OpDispatch 0 (EvError true) 1] (initial tt).

(** ** App.jsx: the header, the preview and the download *)

(** [elapsed]: the seconds shown in the header, computed from [startedAt],
    [finishedAt] and the clock reading [now] ([Date.now()]) at the time the
    memo is computed.  Timestamps are integer milliseconds; on integers
    below 2^53 the division by 1000 is off by less than 1/1000, so
    [Math.round((end - startedAt) / 1000)], which rounds halves up, is the
    integer [(end - startedAt + 500) / 1000] rounded down.  A timestamp 0
    is falsy, like [null]. *)
Definition elapsed (startedAt finishedAt : option N) (now : N) : Z :=
  match startedAt with
  | None => 0%Z
  | Some s =>
      if (s =? 0) then 0%Z
      else
        let end_ :=
          match finishedAt with
          | Some f => if (f =? 0) then now else f
          | None => now
          end in
        Z.max 0 ((Z.of_N end_ - Z.of_N s + 500) / 1000)
  end.

(** The first ['>'] of a string: what stands before it and what follows. *)
Fixpoint find_gt (s : jsstring) : option (jsstring * jsstring) :=
  match s with
  | [] => None
  | c :: s' =>
      if (c =? 62) then Some ([], s')
      else
        match find_gt s' with
        | Some (inside, rest) => Some (c :: inside, rest)
        | None => None
        end
  end.

(** [s.replace(/<[^>]+>/g, ' ')], scanning from the left: at a ['<'] that is
    followed by at least one code unit other than ['>'] and then by a
    ['>'], the match runs up to the first ['>'] and is replaced by a space;
    any other code unit is copied.  [fuel] bounds the number of steps. *)
Fixpoint replace_tags (fuel : nat) (s : jsstring) : jsstring :=
  match fuel with
  | O => s
  | S fuel' =>
      match s with
      | [] => []
      | c :: s' =>
          if (c =? 60) then
            match find_gt s' with
            | Some (_ :: _, rest) => 32 :: replace_tags fuel' rest
            | _ => c :: replace_tags fuel' s'
            end
          else c :: replace_tags fuel' s'
      end
  end.

Definition strip_tags (s : jsstring) : jsstring :=
  replace_tags (length s) s.

(** [s.split(/\s+/)]: the pieces between the maximal runs of whitespace; a
    run at the start or at the end leaves an empty piece there, and the
    empty string gives one empty piece.  [sep] tells that the scan is
    inside a run. *)
Fixpoint split_go (sep : bool) (s : jsstring) : list jsstring :=
  match s with
  | [] => [[]]
  | c :: s' =>
      if is_whitespace c then
        if sep then split_go true s' else [] :: split_go true s'
      else
        match split_go false s' with
        | piece :: rest => (c :: piece) :: rest
        | [] => [[c]]
        end
  end.

Definition split_whitespace (s : jsstring) : list jsstring :=
  split_go false s.

(** [wordCount] *)
Definition wordCount (html : jsstring) : nat :=
  let text := strip_tags html in
  if truthy (trim text) then length (split_whitespace (trim text)) else 0%nat.

(** The number of words of a text: the positions where a code unit that is
    not whitespace stands at the start or after whitespace.  [after_ws]
    tells what stands before the text. *)
Fixpoint word_starts (after_ws : bool) (s : jsstring) : nat :=
  match s with
  | [] => 0%nat
  | c :: s' =>
      if is_whitespace c then word_starts true s'
      else ((if after_ws then 1 else 0) + word_starts false s')%nat
  end.

(** Whether a text ends in whitespace; [after_ws] answers for the empty
    text. *)
Fixpoint ends_in_whitespace (after_ws : bool) (s : jsstring) : bool :=
  match s with
  | [] => after_ws
  | c :: s' => ends_in_whitespace (is_whitespace c) s'
  end.

(** A line of a template literal, with its line feed. *)
Definition line (s : string) : jsstring := lit s ++ [10].

Definition placeholderHTML : jsstring :=
  [10]
  ++ lit "  <h2 style=" ++ [34] ++ lit "margin:0 0 8px 0;" ++ [34]
  ++ lit ">Your contract will appear here" ++ [8230] ++ line "</h2>"
  ++ lit "  <p style=" ++ [34] ++ lit "margin:0 0 24px 0;" ++ [34]
  ++ line ">Click <strong>Generate</strong> to start streaming.</p>"
  ++ line "  <h3>Formatting expectations</h3>"
  ++ line "  <ol>"
  ++ lit "    <li>Section numbering (1., 1.1, 1.2, " ++ [8230] ++ line ")</li>"
  ++ lit "    <li>Consistent headings (H1" ++ [8211] ++ line "H3)</li>"
  ++ line "    <li>Readable paragraphs and lists</li>"
  ++ line "  </ol>".

Definition EMBEDDED_CSS : jsstring :=
  [10]
  ++ line "  body { font-family: ui-serif, Georgia, Cambria, 'Times New Roman', Times, serif; color: #111827; }"
  ++ line "  h1,h2,h3 { color:#0f172a; }"
  ++ line "  h1 { font-size: 28px; margin: 0 0 8px; }"
  ++ line "  h2 { font-size: 22px; margin: 24px 0 8px; }"
  ++ line "  h3 { font-size: 18px; margin: 20px 0 8px; }"
  ++ line "  p { margin: 8px 0; }"
  ++ line "  ol, ul { padding-left: 22px; }"
  ++ line "  a { color: #0ea5e9; }".

(** The document that [handleDownload] builds around the HTML. *)
Definition document_head : jsstring :=
  line "<!doctype html>"
  ++ lit "<html><head><meta charset=" ++ [34] ++ lit "utf-8" ++ [34]
  ++ lit "><title>Contract</title>"
  ++ lit "<style>" ++ EMBEDDED_CSS ++ lit "</style></head><body>".

Definition document_tail : jsstring := lit "</body></html>".

(** A call of [downloadHtml(content, filename)]; lib/download.js itself is
    not among the sources. *)
Record Download : Type := {
  file_content : jsstring;
  file_name : jsstring
}.

(** [handleDownload()]; [iso] is what [new Date().toISOString()] returns. *)
Definition handleDownload (iso : jsstring) (s : AppState) : option Download :=
  if negb (truthy (html s)) then None
  else
    let timestamp := take 19 iso in
    Some {| file_content := document_head ++ html s ++ document_tail;
            file_name := lit "contract-" ++ timestamp ++ lit ".html" |}.

(** ** The components *)

(** components/PromptForm.jsx: the two buttons. *)
Record PromptFormView : Type := {
  generate_disabled : bool;
  generate_label : jsstring;
  stop_disabled : bool
}.

Definition PromptForm (isGenerating : bool) : PromptFormView :=
  {| generate_disabled := isGenerating;
     generate_label := if isGenerating then lit "Generating" ++ [8230] else lit "Generate";
     stop_disabled := negb isGenerating |}.

(** components/StatusBar.jsx: the text of the alert, or nothing. *)
Definition StatusBar (error : jsstring) : option jsstring :=
  if negb (truthy error) then None else Some error.

(** components/Preview.jsx: the HTML that is set into the page. *)
Definition Preview (html placeholder : jsstring) : jsstring :=
  js_or html placeholder.

(** components/Toolbar.jsx: whether the download button is disabled. *)
Definition Toolbar (hasContent : bool) : bool :=
  negb hasContent.

(** A timestamp as a condition: [null] and 0 are falsy. *)
Definition truthy_time (t : option N) : bool :=
  match t with
  | Some n => negb (n =? 0)
  | None => false
  end.

(** What [App] renders from its state. *)
Record View : Type := {
  view_status : jsstring;
  view_words : nat;
  view_form : PromptFormView;
  view_alert : option jsstring;
  view_preview : jsstring;
  view_download_disabled : bool
}.

Definition render (s : AppState) : View :=
  {| view_status :=
       if isGenerating s then lit "Streaming" ++ [8230]
       else if truthy_time (finishedAt s) then lit "Ready" else lit "Idle";
     view_words := wordCount (html s);
     view_form := PromptForm (isGenerating s);
     view_alert := StatusBar (error s);
     view_preview := Preview (html s) placeholderHTML;
     view_download_disabled := Toolbar (truthy (html s)) |}.

(** ** What holds of every page *)

Section Reachable.

Variable VITE_BACKEND_URL : option jsstring.

(** A request of lib/api.js: a POST of JSON to [/generate] with a prompt or
    to [/stop] with a job identifier that is not empty. *)
Definition api_request (r : Request) : Prop :=
  req_method r = lit "POST"
  /\ req_headers r = json_headers
  /\ ((req_url r = BACKEND_URL VITE_BACKEND_URL ++ lit "/generate"
       /\ exists prompt, req_body r = JsonPrompt prompt)
      \/ (req_url r = BACKEND_URL VITE_BACKEND_URL ++ lit "/stop"
          /\ exists j, req_body r = JsonJobId j /\ truthy j = true)).

(** The stream that [esRef] holds is the stream of the job in [jobId]. *)
Definition streams_job (p : Page) : Prop :=
  forall i, esRef (hook p) = Some i ->
    exists e, sources (hook p) !! i = Some e
              /\ es_url e = streamUrl VITE_BACKEND_URL (jobId (state p)).

(** The URL of the EventSource that an action creates: [handleGenerate]
    calls [es.start(streamUrl(jobId), ...)] when [createJob] has settled
    with a body, and nothing else creates one. *)
Definition opened_stream (a : Action) : list jsstring :=
  match a with
  | CreateJobSettled net _ =>
      match createJob_settle net with
      | Return body => [streamUrl VITE_BACKEND_URL (body_jobId body)]
      | Throw _ => []
      end
  | _ => []
  end.

End Reachable.

(** A click on one of the two buttons of the form. *)
Definition is_click (a : Action) : bool :=
  match a with
  | GenerateClicked _ | StopClicked => true
  | _ => false
  end.

(** While the page is generating, no finish time is set and a start time
    is. *)
Definition generating_ok (s : AppState) : Prop :=
  isGenerating s = true -> finishedAt s = None /\ startedAt s <> None.

(** While an EventSource is open the [finishedRef] flag is not set. *)
Definition live {A : Type} (w : World A) : Prop :=
  forall i, is_open i w -> finishedRef w = false.

(** In the calls of one stream the call of the ['done'] handler, if there
    is one, is the last, and there is no second one. *)
Definition done_last (l : list Call) : Prop :=
  forall l1 l2, l = l1 ++ CallDone :: l2 -> l2 = [] /\ CallDone ∉ l1.

(** A stream with only a ['done'] handler, which counts its calls, run to
    its end and past it. *)
Definition done_only : Handlers nat :=
  {| h_open := None; h_chunk := None; h_done := Some (fun _ n => S n);
     h_error := None; h_onerror := None |}.

Definition done_twice : World nat :=
  run [OpStart (lit "/stream/a") done_only;
       OpDispatch 0 (EvMessage (lit "done") []) 1;
       OpDispatch 0 (EvMessage (lit "done") []) 2;
       OpDispatch 0 (EvMessage (lit "chunk") (lit "late")) 3]
      (initial 0%nat).

(** The page with the stream of the scenario open. *)
Definition streaming_page : Page :=
  acts None [GenerateClicked 1; CreateJobSettled demo_response 2] demo_page.

(** A stream whose two error handlers count their calls. *)
Definition counting_errors : Handlers nat :=
  {| h_open := None; h_chunk := None; h_done := None;
     h_error := Some (fun _ _ n => S n); h_onerror := Some (fun _ n => S n) |}.

(** The error of a [fetch] that could not reach the backend. *)
Definition failed_fetch : JsError :=
  {| err_name := lit "TypeError"; err_message := lit "Failed to fetch" |}.

(** * Properties *)

(** ** JavaScript strings *)


Lemma str_eqb_eq (a b : jsstring) : str_eqb a b = true -> a = b.
Proof.
  revert b. induction a as [|x a IH]; intros [|y b]; simpl; try discriminate; [reflexivity|].
  intros H. apply andb_true_iff in H as [Hx Hab].
  apply N.eqb_eq in Hx. rewrite Hx, (IH b Hab). reflexivity.
Qed.

Lemma trimStart_blank (s : jsstring) :
  forallb is_whitespace s = true -> trimStart s = [].
Proof.
  induction s as [|c s IH]; simpl; [reflexivity|].
  intros H. apply andb_true_iff in H as [Hc Hs].
  rewrite Hc. auto.
Qed.

Lemma trim_blank (s : jsstring) :
  forallb is_whitespace s = true -> trim s = [].
Proof.
  intros H. unfold trim, trimEnd. rewrite (trimStart_blank s H). reflexivity.
Qed.



Lemma js_or_lit_app (c : ascii) (s : string) (x y : jsstring) :
  js_or (lit (String c s) ++ x) y = lit (String c s) ++ x.
Proof. reflexivity. Qed.

(** ** The stream manager *)

Section UseEventSourceFacts.

Context {A : Type}.
Implicit Types (w : World A) (h : Handlers A) (e : EventSource A).


Lemma stop_esRef w : esRef (stop w) = None.
Proof. unfold stop. simpl. destruct (esRef w) eqn:H; simpl; auto. Qed.

Lemma stop_client w : client (stop w) = client w.
Proof. unfold stop. simpl. destruct (esRef w); reflexivity. Qed.

Lemma stop_calls w : calls (stop w) = calls w.
Proof. unfold stop. simpl. destruct (esRef w); reflexivity. Qed.

Lemma stop_sources w :
  sources (stop w) =
  match esRef w with
  | Some i => alter close_es i (sources w)
  | None => sources w
  end.
Proof. unfold stop. simpl. destruct (esRef w); reflexivity. Qed.

Lemma stop_no_stream w :
  esRef w = None -> stop w = set_finishedRef true w.
Proof. intros H. unfold stop. simpl. rewrite H. reflexivity. Qed.

Lemma stop_stop w : stop (stop w) = stop w.
Proof.
  rewrite (stop_no_stream (stop w)) by apply stop_esRef.
  unfold stop. simpl. destruct (esRef w); reflexivity.
Qed.

Lemma lookup_close_es (l : list (EventSource A)) i j e :
  alter close_es i l !! j = Some e ->
  (i = j /\ es_closed e = true) \/ (i <> j /\ l !! j = Some e).
Proof.
  destruct (decide (i = j)) as [->|Hne].
  - rewrite list_lookup_alter_eq. destruct (l !! j); simpl; [|discriminate].
    intros [= <-]. left. split; reflexivity.
  - rewrite list_lookup_alter_ne by assumption. intros H. right. split; assumption.
Qed.

Lemma stop_length w : length (sources (stop w)) = length (sources w).
Proof. rewrite stop_sources. destruct (esRef w); [apply length_alter|reflexivity]. Qed.

Lemma stop_all_closed w : tracked w -> all_closed (stop w).
Proof.
  intros [Hw _] i e. rewrite stop_sources.
  destruct (esRef w) as [r|] eqn:Hr.
  - intros [[_ Hc]|[Hne He]]%lookup_close_es; [exact Hc|].
    destruct (es_closed e) eqn:Hc; [reflexivity|].
    specialize (Hw i e He Hc). congruence.
  - intros He. destruct (es_closed e) eqn:Hc; [reflexivity|].
    specialize (Hw i e He Hc). congruence.
Qed.

Lemma all_closed_tracked w : all_closed w -> esRef w = None -> tracked w.
Proof.
  intros Hw Hr. split.
  - intros i e He Hc. rewrite (Hw i e He) in Hc. discriminate.
  - intros i Hi. congruence.
Qed.

Lemma tracked_no_stream w : tracked w -> esRef w = None -> all_closed w.
Proof.
  intros [Hw _] Hr i e He. destruct (es_closed e) eqn:Hc; [reflexivity|].
  specialize (Hw i e He Hc). congruence.
Qed.

Lemma start_esRef url h w : esRef (start url h w) = Some (length (sources w)).
Proof. unfold start. simpl. rewrite stop_length. reflexivity. Qed.

Lemma start_sources url h w :
  sources (start url h w) = sources (stop w) ++ [new_EventSource url h].
Proof. reflexivity. Qed.

Lemma start_client url h w : client (start url h w) = client w.
Proof. unfold start. simpl. apply stop_client. Qed.

Lemma start_calls url h w : calls (start url h w) = calls w.
Proof. unfold start. simpl. apply stop_calls. Qed.


(** After [start] the new EventSource is the only one that is open. *)
Lemma start_only_new_open url h w i e :
  tracked w ->
  sources (start url h w) !! i = Some e ->
  es_closed e = false ->
  i = length (sources w) /\ e = new_EventSource url h.
Proof.
  intros Hw He Hc. rewrite start_sources in He.
  apply lookup_app_Some in He as [He|[Hle He]].
  - rewrite (stop_all_closed w Hw i e He) in Hc. discriminate.
  - rewrite stop_length in Hle, He.
    destruct (i - length (sources w))%nat as [|k] eqn:Hk; simpl in He.
    + injection He as <-. split; [lia|reflexivity].
    + destruct k; discriminate.
Qed.

Lemma start_new_open url h w :
  sources (start url h w) !! length (sources w) = Some (new_EventSource url h).
Proof.
  rewrite start_sources, <- (stop_length w).
  rewrite lookup_app_r by lia. rewrite Nat.sub_diag. reflexivity.
Qed.

Lemma start_tracked url h w : tracked w -> tracked (start url h w).
Proof.
  intros Hw. split.
  - intros i e He Hc.
    destruct (start_only_new_open url h w i e Hw He Hc) as [-> _].
    apply start_esRef.
  - intros i. rewrite start_esRef, start_sources, length_app, stop_length.
    intros [= <-]. simpl. lia.
Qed.

(** The listeners other than ['done'] touch neither the refs nor the
    EventSource objects. *)
Lemma on_open_frame i h now w :
  esRef (on_open i h now w) = esRef w /\ sources (on_open i h now w) = sources w
  /\ finishedRef (on_open i h now w) = finishedRef w.
Proof. unfold on_open. destruct (h_open h); simpl; auto. Qed.

Lemma on_chunk_frame i h data now w :
  esRef (on_chunk i h data now w) = esRef w /\ sources (on_chunk i h data now w) = sources w
  /\ finishedRef (on_chunk i h data now w) = finishedRef w.
Proof. unfold on_chunk. destruct (h_chunk h); simpl; auto. Qed.

Lemma on_error_frame i h data now w :
  esRef (on_error i h data now w) = esRef w /\ sources (on_error i h data now w) = sources w
  /\ finishedRef (on_error i h data now w) = finishedRef w.
Proof.
  unfold on_error. destruct (h_error h); [|auto].
  destruct (finishedRef w) eqn:Hf; simpl; auto.
Qed.

Lemma es_onerror_frame i h now w :
  esRef (es_onerror i h now w) = esRef w /\ sources (es_onerror i h now w) = sources w
  /\ finishedRef (es_onerror i h now w) = finishedRef w.
Proof.
  unfold es_onerror. destruct (finishedRef w) eqn:Hf; [auto|].
  destruct (h_onerror h); simpl; auto.
Qed.

Lemma on_done_refs i h now w :
  esRef (on_done i h now w) = None
  /\ sources (on_done i h now w) = alter close_es i (sources w)
  /\ finishedRef (on_done i h now w) = true.
Proof. unfold on_done. destruct (h_done h); simpl; auto. Qed.

(** [fire] either leaves refs and objects alone or ends the stream as
    the ['done'] listener does. *)
Lemma fire_refs i ev now w :
  (esRef (fire i ev now w) = esRef w
   /\ sources (fire i ev now w) = sources w
   /\ finishedRef (fire i ev now w) = finishedRef w)
  \/ (esRef (fire i ev now w) = None
      /\ sources (fire i ev now w) = alter close_es i (sources w)
      /\ finishedRef (fire i ev now w) = true).
Proof.
  unfold fire. destruct (sources w !! i) as [e|]; [|left; auto].
  destruct ev as [|fatal|type data].
  - left. apply on_open_frame.
  - left.
    destruct (es_onerror_frame i (es_handlers e) now (on_error i (es_handlers e) None now w))
      as (-> & -> & ->).
    apply on_error_frame.
  - destruct (str_eqb type (lit "open")); [left; apply on_open_frame|].
    destruct (str_eqb type (lit "chunk")); [left; apply on_chunk_frame|].
    destruct (str_eqb type (lit "done")); [right; apply on_done_refs|].
    destruct (str_eqb type (lit "error")); [|left; auto].
    left.
    destruct (es_onerror_frame i (es_handlers e) now
                (on_error i (es_handlers e) (Some data) now w)) as (-> & -> & ->).
    apply on_error_frame.
Qed.

Lemma close_tracked i w : tracked w -> tracked (close i w).
Proof.
  intros [Hw Hv]. split.
  - intros j e. unfold close. simpl.
    intros [[_ Hc]|[_ He]]%lookup_close_es Hc'; [congruence|].
    exact (Hw j e He Hc').
  - intros j. unfold close. simpl. rewrite length_alter. apply Hv.
Qed.

Lemma fire_tracked i ev now w :
  tracked w -> esRef w = Some i \/ all_closed w -> tracked (fire i ev now w).
Proof.
  intros [Hw Hv] Hcur.
  destruct (fire_refs i ev now w) as [(Hr & Hs & _)|(Hr & Hs & _)]; split.
  - intros j e. rewrite Hr, Hs. apply Hw.
  - intros j. rewrite Hr, Hs. apply Hv.
  - intros j e. rewrite Hr, Hs.
    intros [[_ Hc]|[Hne He]]%lookup_close_es Hc'; [congruence|].
    destruct Hcur as [Hcur|Hcur].
    + specialize (Hw j e He Hc'). congruence.
    + rewrite (Hcur j e He) in Hc'. discriminate.
  - intros j. rewrite Hr. discriminate.
Qed.

Lemma dispatch_tracked i ev now w : tracked w -> tracked (dispatch i ev now w).
Proof.
  intros Hw. unfold dispatch.
  destruct (sources w !! i) as [e|] eqn:He; [|exact Hw].
  destruct (es_closed e) eqn:Hc; [exact Hw|].
  pose proof (proj1 Hw i e He Hc) as Hr.
  destruct ev as [|[|]|type data].
  - apply fire_tracked; auto.
  - apply fire_tracked; [apply close_tracked; exact Hw|left; exact Hr].
  - apply fire_tracked; auto.
  - apply fire_tracked; auto.
Qed.

Lemma stop_tracked w : tracked w -> tracked (stop w).
Proof. intros Hw. apply all_closed_tracked; [apply stop_all_closed, Hw|apply stop_esRef]. Qed.

Lemma run_op_tracked w op : tracked w -> tracked (run_op w op).
Proof.
  destruct op as [url h| |i ev now]; simpl.
  - apply start_tracked.
  - apply stop_tracked.
  - apply dispatch_tracked.
Qed.

Lemma run_tracked ops w : tracked w -> tracked (run ops w).
Proof.
  revert w. induction ops as [|op ops IH]; intros w Hw; simpl; [exact Hw|].
  apply IH, run_op_tracked, Hw.
Qed.

Lemma initial_tracked (a : A) : tracked (initial a).
Proof.
  split.
  - intros i e He. destruct i; discriminate.
  - intros i. discriminate.
Qed.


End UseEventSourceFacts.

Section UseEventSourceRuns.

Context {A : Type}.
Implicit Types (w : World A) (h : Handlers A) (e : EventSource A).

(** *** Counting the open EventSources *)

Lemma filter_open_nil (l : list (EventSource A)) :
  (forall i e, l !! i = Some e -> es_closed e = true) ->
  filter (fun e => es_closed e = false) l = [].
Proof.
  induction l as [|x l IH]; intros H; [reflexivity|].
  rewrite filter_cons. pose proof (H 0%nat x eq_refl) as Hx.
  destruct (decide (es_closed x = false)) as [Hd|_]; [congruence|].
  apply IH. intros i e He. exact (H (S i) e He).
Qed.

Lemma filter_open_le_1 (l : list (EventSource A)) :
  (forall i j x y, l !! i = Some x -> l !! j = Some y ->
                   es_closed x = false -> es_closed y = false -> i = j) ->
  (length (filter (fun e => es_closed e = false) l) <= 1)%nat.
Proof.
  induction l as [|x l IH]; intros H; [simpl; lia|].
  rewrite filter_cons. destruct (decide (es_closed x = false)) as [Hx|Hx].
  - rewrite filter_open_nil; [simpl; lia|].
    intros i e He. destruct (es_closed e) eqn:Hc; [reflexivity|].
    specialize (H 0%nat (S i) x e eq_refl He Hx Hc). discriminate.
  - apply IH. intros i j a b Ha Hb Hca Hcb.
    specialize (H (S i) (S j) a b Ha Hb Hca Hcb). lia.
Qed.

Lemma tracked_open_count w : tracked w -> (open_count w <= 1)%nat.
Proof.
  intros [Hw _]. apply filter_open_le_1.
  intros i j x y Hx Hy Hcx Hcy.
  pose proof (Hw i x Hx Hcx). pose proof (Hw j y Hy Hcy). congruence.
Qed.

Lemma start_open_count url h w : tracked w -> open_count (start url h w) = 1%nat.
Proof.
  intros Hw. unfold open_count. rewrite start_sources, filter_app.
  rewrite filter_open_nil by apply (stop_all_closed w Hw). reflexivity.
Qed.

(** *** Closed EventSources stay closed *)

Lemma alter_close_keeps_closed (l : list (EventSource A)) i j :
  (exists e, l !! i = Some e /\ es_closed e = true) ->
  exists e, alter close_es j l !! i = Some e /\ es_closed e = true.
Proof.
  intros (e & He & Hc). destruct (decide (j = i)) as [->|Hne].
  - exists (close_es e). rewrite list_lookup_alter_eq, He. split; reflexivity.
  - exists e. rewrite list_lookup_alter_ne by assumption. split; assumption.
Qed.

Lemma alter_close_closes (l : list (EventSource A)) i :
  (i < length l)%nat ->
  exists e, alter close_es i l !! i = Some e /\ es_closed e = true.
Proof.
  intros Hi. destruct (lookup_lt_is_Some_2 l i Hi) as [e He].
  exists (close_es e). rewrite list_lookup_alter_eq, He. split; reflexivity.
Qed.

Lemma stop_keeps_closed i w : is_closed i w -> is_closed i (stop w).
Proof.
  unfold is_closed. rewrite stop_sources. destruct (esRef w); [|auto].
  apply alter_close_keeps_closed.
Qed.


Lemma start_keeps_closed url h i w : is_closed i w -> is_closed i (start url h w).
Proof.
  intros Hc. apply stop_keeps_closed in Hc as (e & He & Hc).
  exists e. split; [|exact Hc]. rewrite start_sources. apply lookup_app_l_Some, He.
Qed.

Lemma dispatch_closed i ev now w : is_closed i w -> dispatch i ev now w = w.
Proof. intros (e & He & Hc). unfold dispatch. rewrite He, Hc. reflexivity. Qed.

Lemma fire_keeps_closed i j ev now w : is_closed i w -> is_closed i (fire j ev now w).
Proof.
  intros Hc. unfold is_closed.
  destruct (fire_refs j ev now w) as [(_ & -> & _)|(_ & -> & _)]; [exact Hc|].
  apply alter_close_keeps_closed, Hc.
Qed.

Lemma dispatch_keeps_closed i j ev now w : is_closed i w -> is_closed i (dispatch j ev now w).
Proof.
  intros Hc. unfold dispatch.
  destruct (sources w !! j) as [e|]; [|exact Hc].
  destruct (es_closed e); [exact Hc|].
  assert (Hc' : is_closed i (close j w)) by (apply alter_close_keeps_closed, Hc).
  destruct ev as [|[|]|type data]; apply fire_keeps_closed; assumption.
Qed.

Lemma run_op_keeps_closed i w op : is_closed i w -> is_closed i (run_op w op).
Proof.
  destruct op as [url h| |j ev now]; simpl.
  - apply start_keeps_closed.
  - apply stop_keeps_closed.
  - apply dispatch_keeps_closed.
Qed.

(** *** The log of handler calls *)

(** The calls that firing an event at [i] adds to the log are made by the
    listeners of [i]; none reports an error once [finishedRef] is set. *)
Lemma fire_calls i ev now w :
  exists cs, calls (fire i ev now w) = calls w ++ ((fun c => (i, c)) <$> cs)
             /\ (finishedRef w = true -> Forall (fun c => is_error_call c = false) cs).
Proof.
  unfold fire. destruct (sources w !! i) as [e|]; [|exists []; rewrite app_nil_r; auto].
  set (h := es_handlers e).
  assert (Hopen : exists cs, calls (on_open i h now w) = calls w ++ ((fun c => (i, c)) <$> cs)
             /\ (finishedRef w = true -> Forall (fun c => is_error_call c = false) cs)).
  { unfold on_open. destruct (h_open h).
    - exists [CallOpen]. simpl. auto.
    - exists []. rewrite app_nil_r. auto. }
  assert (Herr : forall data, exists cs,
             calls (es_onerror i h now (on_error i h data now w))
             = calls w ++ ((fun c => (i, c)) <$> cs)
             /\ (finishedRef w = true -> Forall (fun c => is_error_call c = false) cs)).
  { intros data. unfold es_onerror, on_error.
    destruct (finishedRef w) eqn:Hf.
    - exists []. destruct (h_error h); rewrite Hf, app_nil_r; auto.
    - destruct (h_error h) as [f|], (h_onerror h) as [g|]; simpl; rewrite ?Hf; simpl.
      + exists [CallError (js_or_opt data (lit "Streaming error")); CallOnerror].
        rewrite <- app_assoc. split; [reflexivity|discriminate].
      + exists [CallError (js_or_opt data (lit "Streaming error"))].
        split; [reflexivity|discriminate].
      + exists [CallOnerror]. split; [reflexivity|discriminate].
      + exists []. rewrite app_nil_r. split; [reflexivity|discriminate]. }
  destruct ev as [|fatal|type data]; [exact Hopen|apply Herr|].
  destruct (str_eqb type (lit "open")); [exact Hopen|].
  destruct (str_eqb type (lit "chunk")).
  { unfold on_chunk. destruct (h_chunk h).
    - exists [CallChunk data]. simpl. auto.
    - exists []. rewrite app_nil_r. auto. }
  destruct (str_eqb type (lit "done")).
  { unfold on_done. destruct (h_done h).
    - exists [CallDone]. simpl. auto.
    - exists []. simpl. rewrite app_nil_r. auto. }
  destruct (str_eqb type (lit "error")); [apply Herr|].
  exists []. rewrite app_nil_r. auto.
Qed.




Lemma fire_calls_of_other i j ev now w :
  i <> j -> calls_of i (fire j ev now w) = calls_of i w.
Proof.
  intros Hne. destruct (fire_calls j ev now w) as (cs & Hcs & _).
  unfold calls_of. rewrite Hcs, filter_app, fmap_app.
  assert (Hnil : filter (fun c : nat * Call => c.1 = i) ((fun c => (j, c)) <$> cs) = []).
  { clear Hcs. induction cs as [|c cs IH]; [reflexivity|].
    rewrite fmap_cons, filter_cons. simpl.
    destruct (decide (j = i)) as [Hd|_]; [congruence|exact IH]. }
  rewrite Hnil. simpl. apply app_nil_r.
Qed.


Lemma dispatch_calls_of_closed i j ev now w :
  is_closed i w -> calls_of i (dispatch j ev now w) = calls_of i w.
Proof.
  intros Hc. destruct (decide (i = j)) as [<-|Hne].
  - rewrite dispatch_closed by exact Hc. reflexivity.
  - unfold dispatch. destruct (sources w !! j) as [e|]; [|reflexivity].
    destruct (es_closed e); [reflexivity|].
    destruct ev as [|[|]|type data]; rewrite fire_calls_of_other by exact Hne; reflexivity.
Qed.

Lemma run_calls_of_closed i ops w :
  is_closed i w -> calls_of i (run ops w) = calls_of i w.
Proof.
  revert w. induction ops as [|op ops IH]; intros w Hc; simpl; [reflexivity|].
  rewrite IH by (apply run_op_keeps_closed, Hc).
  destruct op as [url h| |j ev now]; simpl.
  - unfold calls_of. rewrite start_calls. reflexivity.
  - unfold calls_of. rewrite stop_calls. reflexivity.
  - apply dispatch_calls_of_closed, Hc.
Qed.

(** Once everything is closed the browser has nothing to dispatch. *)
Lemma dispatch_all_closed i ev now w : all_closed w -> dispatch i ev now w = w.
Proof.
  intros Hw. unfold dispatch. destruct (sources w !! i) as [e|] eqn:He; [|reflexivity].
  rewrite (Hw i e He). reflexivity.
Qed.


Lemma dispatch_chunk i data now w e :
  sources w !! i = Some e -> es_closed e = false ->
  dispatch i (EvMessage (lit "chunk") data) now w = on_chunk i (es_handlers e) data now w.
Proof.
  intros He Hc. unfold dispatch. rewrite He, Hc. unfold fire. rewrite He. reflexivity.
Qed.

End UseEventSourceRuns.

Section UseEventSourceTheorems.

Context {A : Type}.
Implicit Types (w : World A) (h : Handlers A) (e : EventSource A).

(** Two worlds that [stop] may tell apart only by the [finishedRef] flag it
    sets: they are equal, or no stream is open and the first is the second
    with the flag set. *)
Lemma stop_unobservable_step w1 w2 op :
  w1 = w2 \/ (all_closed w2 /\ esRef w2 = None /\ w1 = set_finishedRef true w2) ->
  let w1' := run_op w1 op in
  let w2' := run_op w2 op in
  w1' = w2' \/ (all_closed w2' /\ esRef w2' = None /\ w1' = set_finishedRef true w2').
Proof.
  intros [->|(Hc & Hr & ->)]; [left; reflexivity|].
  assert (Hstop : stop (set_finishedRef true w2) = stop w2).
  { rewrite !stop_no_stream by (simpl; assumption). reflexivity. }
  destruct op as [url h| |i ev now]; simpl.
  - left. unfold start. rewrite Hstop. reflexivity.
  - left. exact Hstop.
  - right. rewrite !dispatch_all_closed by assumption. auto.
Qed.

Lemma stop_unobservable ops w1 w2 :
  w1 = w2 \/ (all_closed w2 /\ esRef w2 = None /\ w1 = set_finishedRef true w2) ->
  esRef (run ops w1) = esRef (run ops w2)
  /\ sources (run ops w1) = sources (run ops w2)
  /\ client (run ops w1) = client (run ops w2)
  /\ calls (run ops w1) = calls (run ops w2).
Proof.
  revert w1 w2. induction ops as [|op ops IH]; intros w1 w2 H; simpl.
  - destruct H as [->|(_ & _ & ->)]; simpl; auto.
  - apply IH, stop_unobservable_step, H.
Qed.

(** Closing an EventSource that is closed already, or one that does not
    exist, changes nothing. *)
Lemma alter_close_closed (l : list (EventSource A)) i :
  (forall e, l !! i = Some e -> es_closed e = true) -> alter close_es i l = l.
Proof.
  intros H. apply list_eq. intros j. destruct (decide (i = j)) as [->|Hne].
  - rewrite list_lookup_alter_eq. destruct (l !! j) as [e|] eqn:He; [|reflexivity].
    cbn. f_equal. specialize (H e eq_refl). destruct e as [u c h]. cbn in *.
    subst c. reflexivity.
  - apply list_lookup_alter_ne. exact Hne.
Qed.

(** With no stream open, all that [stop] does is to assign the two refs. *)
Lemma stop_all_closed_refs w :
  all_closed w -> stop w = set_esRef None (set_finishedRef true w).
Proof.
  intros Hc. unfold stop. cbn. destruct (esRef w) as [i|] eqn:Hr.
  - unfold close. cbn. rewrite alter_close_closed by (intros e; apply Hc).
    reflexivity.
  - unfold set_esRef, set_finishedRef. cbn. rewrite Hr. reflexivity.
Qed.

(** Two worlds without an open stream that differ in the two refs only
    are not told apart by any step: they stay that way under an event,
    and a [start] or [stop] assigns both refs and makes them equal. *)
Lemma stop_no_op_step w1 w2 op :
  w1 = w2
  \/ (all_closed w2 /\ sources w1 = sources w2 /\ client w1 = client w2
      /\ calls w1 = calls w2) ->
  let w1' := run_op w1 op in
  let w2' := run_op w2 op in
  (w1' = w2'
   \/ (all_closed w2' /\ sources w1' = sources w2' /\ client w1' = client w2'
       /\ calls w1' = calls w2'))
  /\ (match op with OpDispatch _ _ _ => True | _ => w1' = w2' end).
Proof.
  intros [->|(Hc & Hs & Hcl & Hl)].
  { split; [left; reflexivity|]. destruct op; cbn; auto. }
  assert (Hc1 : all_closed w1) by (intros i e; rewrite Hs; apply Hc).
  assert (Hstop : stop w1 = stop w2).
  { rewrite !stop_all_closed_refs by assumption.
    unfold set_esRef, set_finishedRef. cbn. rewrite Hs, Hcl, Hl. reflexivity. }
  destruct op as [url h| |i ev now]; cbn.
  - unfold start. rewrite Hstop. auto.
  - auto.
  - split; [|exact I]. right. rewrite !dispatch_all_closed by assumption. auto.
Qed.

Lemma stop_no_op_runs ops w1 w2 :
  w1 = w2
  \/ (all_closed w2 /\ sources w1 = sources w2 /\ client w1 = client w2
      /\ calls w1 = calls w2) ->
  sources (run ops w1) = sources (run ops w2)
  /\ client (run ops w1) = client (run ops w2)
  /\ calls (run ops w1) = calls (run ops w2)
  /\ (((exists url h, OpStart url h ∈ ops) \/ (OpStop ∈ ops)) ->
      run ops w1 = run ops w2).
Proof.
  revert w1 w2. induction ops as [|op ops IH]; intros w1 w2 H.
  - cbn. split; [|split; [|split]].
    + destruct H as [->|(_ & ? & _)]; auto.
    + destruct H as [->|(_ & _ & ? & _)]; auto.
    + destruct H as [->|(_ & _ & _ & ?)]; auto.
    + intros [(url & h & Hin)|Hin]; apply elem_of_nil in Hin; contradiction.
  - destruct (stop_no_op_step w1 w2 op H) as [Hstep Hcall].
    destruct (IH _ _ Hstep) as (H1 & H2 & H3 & H4).
    cbn. split; [exact H1|]. split; [exact H2|]. split; [exact H3|].
    intros Hin.
    assert (Hcases : run_op w1 op = run_op w2 op
                     \/ ((exists url h, OpStart url h ∈ ops) \/ (OpStop ∈ ops))).
    { destruct Hin as [(url & h & Hin)|Hin]; apply elem_of_cons in Hin as [Heq|Hin].
      - subst op. left. exact Hcall.
      - right. left. eauto.
      - subst op. left. exact Hcall.
      - right. right. exact Hin. }
    destruct Hcases as [Heq|Hlater]; [|exact (H4 Hlater)].
    change (run ops (run_op w1 op) = run ops (run_op w2 op)). rewrite Heq. reflexivity.
Qed.

(** C7.  [stop] is idempotent and total.  When no stream is open, that is
    when every EventSource is closed, it is a no-op for the caller and
    for the streams: it closes nothing, calls no handler and leaves the
    EventSource objects and the caller's state as they are.  What it does
    is to assign the two refs of the hook, [finishedRef] and [esRef],
    which nothing outside the hook reads; whatever the hook and the
    browser do afterwards goes exactly as it would have gone without the
    call, and from the next [start] or [stop] on the hook itself is in the
    same state.  When moreover [esRef] is empty, only the flag is
    assigned, and nothing at all changes if it was set already. *)
Theorem stop_idempotent_and_safe w :
  stop (stop w) = stop w
  /\ (all_closed w ->
      stop w = set_esRef None (set_finishedRef true w)
      /\ sources (stop w) = sources w
      /\ client (stop w) = client w
      /\ calls (stop w) = calls w
      /\ forall ops,
           sources (run ops (stop w)) = sources (run ops w)
           /\ client (run ops (stop w)) = client (run ops w)
           /\ calls (run ops (stop w)) = calls (run ops w)
           /\ (((exists url h, OpStart url h ∈ ops) \/ (OpStop ∈ ops)) ->
               run ops (stop w) = run ops w))
  /\ (esRef w = None ->
      stop w = set_finishedRef true w
      /\ (finishedRef w = true -> stop w = w)
      /\ (tracked w ->
          forall ops,
            esRef (run ops (stop w)) = esRef (run ops w)
            /\ sources (run ops (stop w)) = sources (run ops w)
            /\ client (run ops (stop w)) = client (run ops w)
            /\ calls (run ops (stop w)) = calls (run ops w))).
Proof.
  split; [apply stop_stop|]. split.
  - intros Hc. pose proof (stop_all_closed_refs w Hc) as Hs.
    split; [exact Hs|]. rewrite Hs at 1 2 3. cbn.
    split; [reflexivity|]. split; [reflexivity|]. split; [reflexivity|].
    intros ops. apply stop_no_op_runs. right. rewrite Hs. cbn. auto.
  - intros Hr.
    pose proof (stop_no_stream w Hr) as Hs. split; [exact Hs|]. split.
    + intros Hf. rewrite Hs. destruct w as [r f s c l]. simpl in *. subst. reflexivity.
    + intros Hw ops. apply stop_unobservable. right.
      split; [apply tracked_no_stream; assumption|]. split; assumption.
Qed.

(** C9.  In every run of the hook at most one EventSource is open, and it
    is the one [esRef] holds.  [start] closes whatever was open before it
    creates the new EventSource: after it exactly the new one is open, and
    every EventSource allocated earlier is closed. *)
Theorem at_most_one_EventSource_open (a : A) (ops : list (Op A)) :
  let w := run ops (initial a) in
  (open_count w <= 1)%nat
  /\ (forall i, is_open i w -> esRef w = Some i)
  /\ forall url h,
       let w' := start url h w in
       open_count w' = 1%nat
       /\ esRef w' = Some (length (sources w))
       /\ (forall i, is_open i w' <-> i = length (sources w))
       /\ (forall i, (i < length (sources w))%nat -> is_closed i w').
Proof.
  intros w. assert (Hw : tracked w) by apply run_tracked, initial_tracked.
  split; [apply tracked_open_count, Hw|]. split.
  - intros i (e & He & Hc). exact (proj1 Hw i e He Hc).
  - intros url h w'. split; [apply start_open_count, Hw|].
    split; [apply start_esRef|]. split.
    + intros i. split.
      * intros (e & He & Hc). exact (proj1 (start_only_new_open url h w i e Hw He Hc)).
      * intros ->. exists (new_EventSource url h). split; [apply start_new_open|reflexivity].
    + intros i Hi. rewrite <- (stop_length w) in Hi.
      destruct (lookup_lt_is_Some_2 _ i Hi) as [e He].
      exists e. split.
      * unfold w'. rewrite start_sources. apply lookup_app_l_Some, He.
      * exact (stop_all_closed w Hw i e He).
Qed.




End UseEventSourceTheorems.

(** ** The page *)







Lemma handlers_ok_close i l : handlers_ok l -> handlers_ok (alter close_es i l).
Proof.
  intros Hl j e. destruct (decide (i = j)) as [->|Hne].
  - rewrite list_lookup_alter_eq. destruct (l !! j) as [x|] eqn:Hx; simpl; [|discriminate].
    intros [= <-]. simpl. exact (Hl j x Hx).
  - rewrite list_lookup_alter_ne by assumption. apply Hl.
Qed.

Lemma handlers_ok_stop w : handlers_ok (sources w) -> handlers_ok (sources (stop w)).
Proof.
  intros Hl. rewrite stop_sources. destruct (esRef w); [apply handlers_ok_close|]; exact Hl.
Qed.

Lemma handlers_ok_start url w :
  handlers_ok (sources w) -> handlers_ok (sources (start url stream_handlers w)).
Proof.
  intros Hl i e. rewrite start_sources.
  intros [He|[_ He]]%lookup_app_Some.
  - exact (handlers_ok_stop w Hl i e He).
  - destruct (i - length (sources (stop w)))%nat as [|[|k]]; simpl in He; try discriminate.
    injection He as <-. reflexivity.
Qed.

Lemma handlers_ok_fire i ev now w :
  handlers_ok (sources w) -> handlers_ok (sources (fire i ev now w)).
Proof.
  intros Hl. destruct (fire_refs i ev now w) as [(_ & -> & _)|(_ & -> & _)];
    [exact Hl|apply handlers_ok_close, Hl].
Qed.

Lemma handlers_ok_dispatch i ev now w :
  handlers_ok (sources w) -> handlers_ok (sources (dispatch i ev now w)).
Proof.
  intros Hl. unfold dispatch.
  destruct (sources w !! i) as [e|]; [|exact Hl].
  destruct (es_closed e); [exact Hl|].
  destruct ev as [|[|]|type data]; apply handlers_ok_fire; try exact Hl.
  apply handlers_ok_close, Hl.
Qed.

Lemma page_ok_stop p : page_ok p -> page_ok (with_es stop p).
Proof.
  intros [Ht Hh]. split; [apply stop_tracked, Ht|apply handlers_ok_stop, Hh].
Qed.

Lemma page_ok_mount prompt0 html0 : page_ok (mount prompt0 html0).
Proof.
  split; [apply initial_tracked|]. intros i e He. destruct i; discriminate.
Qed.

Lemma page_ok_act url p a : page_ok p -> page_ok (act url p a).
Proof.
  intros Hp. destruct a as [text|now|net now| |net now|es ev now]; simpl.
  - exact Hp.
  - unfold handleGenerate_begin.
    destruct (negb (truthy (trim (prompt (state p))))); exact Hp.
  - unfold handleGenerate_resume. destruct (createJob_settle net) as [body|err].
    + destruct Hp as [Ht Hh]. split; [apply start_tracked, Ht|apply handlers_ok_start, Hh].
    + apply page_ok_stop. exact Hp.
  - unfold handleStop_begin. destruct (jobId (state p)) as [j|]; [|exact Hp].
    destruct (negb (truthy j)); exact Hp.
  - unfold handleStop_resume.
    assert (Hs : page_ok (with_es stop p)) by apply page_ok_stop, Hp.
    destruct (stopJob_settle net); exact Hs.
  - destruct Hp as [Ht Hh]. split; [apply dispatch_tracked, Ht|apply handlers_ok_dispatch, Hh].
Qed.

Lemma page_ok_acts url l p : page_ok p -> page_ok (acts url l p).
Proof.
  revert p. induction l as [|a l IH]; intros p Hp; simpl; [exact Hp|].
  apply IH, page_ok_act, Hp.
Qed.


Lemma acts_cons url a l p : acts url (a :: l) p = acts url l (act url p a).
Proof. reflexivity. Qed.






(** Chunks on the open stream of the page. *)
Lemma deliver_chunks_append es chunks p e :
  sources (hook p) !! es = Some e -> es_closed e = false ->
  es_handlers e = stream_handlers ->
  html (state (deliver_chunks es chunks p)) = html (state p) ++ concat (map fst chunks)
  /\ calls (hook (deliver_chunks es chunks p))
     = calls (hook p) ++ map (fun c => (es, CallChunk c.1)) chunks.
Proof.
  intros He Hc Hh. revert p He.
  induction chunks as [|[data now] chunks IH]; intros p He; simpl.
  - rewrite !app_nil_r. auto.
  - set (q := deliver es (EvMessage (lit "chunk") data) now p).
    assert (Hq : hook q = on_chunk es stream_handlers data now (hook p)).
    { unfold q, deliver. simpl.
      rewrite (dispatch_chunk es data now (hook p) e He Hc), Hh. reflexivity. }
    destruct (IH q) as [H1 H2]; [rewrite Hq; exact He|].
    rewrite H1, H2. unfold state. rewrite Hq. simpl.
    rewrite <- !app_assoc. auto.
Qed.



(** *** What the actions do to the displayed HTML *)









(** *** Events that report nothing *)





(** ** Properties of the client *)


(** C8.  With a prompt that is empty or all whitespace, [handleGenerate]
    sets the error message and returns: it sends no request, opens no
    stream, and leaves the rest of the state as it is. *)
Theorem blank_prompt_is_rejected url now p :
  forallb is_whitespace (prompt (state p)) = true ->
  handleGenerate_begin url now p
  = (set_state (setError (Value (lit "Please describe the business context first."))) p, false)
  /\ let p' := (handleGenerate_begin url now p).1 in
     error (state p') = lit "Please describe the business context first."
     /\ network p' = network p
     /\ esRef (hook p') = esRef (hook p)
     /\ sources (hook p') = sources (hook p)
     /\ html (state p') = html (state p)
     /\ jobId (state p') = jobId (state p)
     /\ isGenerating (state p') = isGenerating (state p).
Proof.
  intros Hblank.
  assert (H : handleGenerate_begin url now p
              = (set_state (setError (Value (lit "Please describe the business context first."))) p,
                 false)).
  { unfold handleGenerate_begin. rewrite (trim_blank _ Hblank). reflexivity. }
  split; [exact H|]. rewrite H. simpl. repeat split; reflexivity.
Qed.

(** C5.  [createJob] sends one request, a POST of the prompt to
    [/generate].  When the response is ok it completes with what
    [res.json()] gives, the parsed body; when it is not ok it throws
    [Generate failed: <status>], and [handleGenerate] then shows that
    message, sets no job identifier and opens no stream. *)
Theorem createJob_sends_and_settles url prompt sent :
  (forall net,
     (createJob url prompt net sent).1
     = sent ++ [ {| req_url := BACKEND_URL url ++ lit "/generate";
                       req_method := lit "POST";
                       req_headers := json_headers;
                       req_body := JsonPrompt prompt |} ])
  /\ (forall res, res_ok res = true ->
        (createJob url prompt (Resolved res) sent).2 = res_json res)
  /\ (forall res, res_ok res = false ->
        (createJob url prompt (Resolved res) sent).2
        = Throw (new_Error (lit "Generate failed: " ++ decimal (res_status res))))
  /\ (forall res now p, res_ok res = false ->
        let p' := handleGenerate_resume url (Resolved res) now p in
        error (state p') = lit "Generate failed: " ++ decimal (res_status res)
        /\ jobId (state p') = jobId (state p)
        /\ esRef (hook p') = None
        /\ length (sources (hook p')) = length (sources (hook p))
        /\ network p' = network p).
Proof.
  split; [reflexivity|]. split; [|split].
  - intros res Hok. simpl. rewrite Hok. reflexivity.
  - intros res Hok. simpl. rewrite Hok. reflexivity.
  - intros res now p Hok p'. unfold p', handleGenerate_resume, createJob_settle.
    rewrite Hok. unfold state. cbn.
    rewrite stop_esRef, stop_length, stop_client. cbn.
    rewrite js_or_lit_app. auto.
Qed.

(** C6.  Without a job identifier [handleStop] does nothing.  With one it
    sends one request to [/stop] for that job, and when the request has
    settled, whether fulfilled or rejected, it closes the stream and marks
    the generation as finished; the outcome of the request changes
    nothing, and the error message stays as it was. *)
Theorem handleStop_is_best_effort url prompt0 html0 actions :
  let p := acts url actions (mount prompt0 html0) in
  (jobId (state p) = None -> handleStop_begin url p = (p, false))
  /\ (forall j, jobId (state p) = Some j -> truthy j = true ->
        handleStop_begin url p
        = (with_network (fun n => n ++ [ {| req_url := BACKEND_URL url ++ lit "/stop";
                                            req_method := lit "POST";
                                            req_headers := json_headers;
                                            req_body := JsonJobId j |} ]) p, true))
  /\ forall net now,
       let p' := handleStop_resume net now p in
       p' = handleStop_resume (Resolved {| res_status := 200; res_json := Return {| body_jobId := None |} |}) now p
       /\ network p' = network p
       /\ esRef (hook p') = None
       /\ all_closed (hook p')
       /\ isGenerating (state p') = false
       /\ finishedAt (state p') = Some now
       /\ error (state p') = error (state p)
       /\ calls (hook p') = calls (hook p).
Proof.
  intros p. assert (Hp : page_ok p) by apply page_ok_acts, page_ok_mount.
  split; [|split].
  - intros Hj. unfold handleStop_begin. rewrite Hj. reflexivity.
  - intros j Hj Ht. unfold handleStop_begin. rewrite Hj, Ht. reflexivity.
  - intros net now p'.
    assert (Hp' : p' = set_state (setFinishedAt (Value (Some now)))
                         (set_state (setIsGenerating (Value false)) (with_es stop p))).
    { unfold p', handleStop_resume. destruct (stopJob_settle net); reflexivity. }
    split; [rewrite Hp'; reflexivity|].
    rewrite Hp'. unfold state. simpl.
    rewrite stop_esRef, stop_client, stop_calls.
    repeat split; try reflexivity.
    intros i e. simpl. apply (stop_all_closed (hook p) (proj1 Hp)).
Qed.



(** ** The scenario, evaluated *)

Example demo_session_result :
  let p := acts None demo_session demo_page in
  html (state p) = lit "<h1>NDA</h1><p>1. Scope</p>"
  /\ isGenerating (state p) = false
  /\ finishedAt (state p) = Some 5
  /\ jobId (state p) = Some (lit "186a842963e0")
  /\ error (state p) = []
  /\ esRef (hook p) = None
  /\ open_count (hook p) = 0%nat
  /\ es_url <$> sources (hook p) !! 0%nat
     = Some (lit "http://localhost:8000/stream/186a842963e0")
  /\ req_url <$> network p = [lit "http://localhost:8000/generate"].
Proof. vm_compute. repeat split; reflexivity. Qed.

Example decimal_500 : decimal 500 = lit "500".
Proof. reflexivity. Qed.

(** An event of type [error] runs the ['error'] listener and then
    [onerror]: after a connection error on a fresh stream the first handler
    has already set the message when the second one runs. *)
Example connection_error_runs_both_listeners :
  let p := acts None [GenerateClicked 1; CreateJobSettled demo_response 2;
                      StreamEvent 0 (EvError false) 3] demo_page in
  calls (hook p) = [(0%nat, CallError (lit "Streaming error")); (0%nat, CallOnerror)]
  /\ error (state p) = lit "Streaming error"
  /\ isGenerating (state p) = false.
Proof. vm_compute. repeat split; reflexivity. Qed.

(** After [done], an error of the same EventSource reaches no handler. *)
Example error_after_done_is_ignored :
  let p := acts None (demo_session ++ [StreamEvent 0 (EvError true) 6]) demo_page in
  p = acts None demo_session demo_page.
Proof. vm_compute. reflexivity. Qed.

(** A second [start] replaces the first stream. *)
Example second_start_replaces_first :
  es_closed <$> sources started_twice = [true; false]
  /\ esRef started_twice = Some 1%nat
  /\ open_count started_twice = 1%nat
  /\ stop (stop started_twice) = stop started_twice.
Proof. vm_compute. repeat split; reflexivity. Qed.



(** C8, at a prompt of whitespace. *)
Lemma blank_prompt_witness :
  handleGenerate_begin None 7 blank_page
  = (set_state (setError (Value (lit "Please describe the business context first."))) blank_page,
     false).
Proof.
  exact (proj1 (blank_prompt_is_rejected None 7 blank_page eq_refl)).
Defined.



(** After a fatal error nothing is open and [esRef] still holds the closed
    EventSource: [stop] then assigns both refs and touches nothing else. *)
Example stop_after_fatal_error :
  open_count failed_stream = 0%nat
  /\ esRef failed_stream = Some 0%nat
  /\ sources (stop failed_stream) = sources failed_stream
  /\ esRef (stop failed_stream) = None
  /\ finishedRef (stop failed_stream) = true.
Proof. vm_compute. repeat split; reflexivity. Qed.

(** On a hook that has just been mounted [stop] sets the flag. *)
Example stop_on_fresh_hook :
  stop (initial tt) = set_finishedRef true (initial tt)
  /\ finishedRef (initial tt) = false.
Proof. split; reflexivity. Qed.

(** ** The pipeline orchestrator *)

Module OrchestratorProps.

Import Orchestrator.

(** Where a list splits at an entry that is not in its first part. *)
Lemma split_skip {T : Type} (pre rest before after : list T) (e : T) :
  pre ++ rest = before ++ e :: after ->
  e ∉ pre ->
  exists mid, before = pre ++ mid /\ rest = mid ++ e :: after.
Proof.
  revert before. induction pre as [|p pre IH]; intros before Heq Hnot.
  - exists before. auto.
  - destruct before as [|b before]; simpl in Heq.
    + injection Heq as -> _. exfalso. apply Hnot. left.
    + injection Heq as -> Heq. destruct (IH before Heq) as (mid & -> & ->).
      * intros Hin. apply Hnot. right. exact Hin.
      * exists mid. auto.
Qed.


Lemma draft_alone_log svc i attempt retries :
  exists n, (draft_alone svc i attempt retries).1 = replicate (S n) (Called (Draft i)).
Proof.
  revert attempt. induction retries as [|r IH]; intros attempt; simpl.
  - destruct (gen_section svc i attempt); exists 0%nat; reflexivity.
  - destruct (gen_section svc i attempt); [exists 0%nat; reflexivity|].
    destruct (IH (S attempt)) as [n Hn]. exists (S n). simpl. rewrite Hn. reflexivity.
Qed.

Lemma fill_avoids a cap waiting inflight l :
  Forall (fun i => i <> a) waiting ->
  Forall (fun t => task_section t <> a) inflight ->
  Forall (fun e => e <> Called (Draft a)) l ->
  let r := fill cap waiting inflight l in
  Forall (fun i => i <> a) r.1.1
  /\ Forall (fun t => task_section t <> a) r.1.2
  /\ Forall (fun e => e <> Called (Draft a)) r.2.
Proof.
  revert inflight l. induction waiting as [|i waiting IH]; intros inflight l Hw Hi Hl; simpl.
  - auto.
  - apply Forall_cons in Hw as [Hia Hw].
    destruct (length inflight <? cap)%nat; [|simpl; auto].
    apply IH; [exact Hw| |].
    + apply Forall_app. split; [exact Hi|]. apply Forall_singleton. exact Hia.
    + apply Forall_app. split; [exact Hl|]. apply Forall_singleton. congruence.
Qed.

Lemma fill_pool_avoids a cfg p : pool_avoids a p -> pool_avoids a (fill_pool cfg p).
Proof.
  intros (Hw & Hi & Hl). unfold pool_avoids, fill_pool. simpl.
  apply fill_avoids; assumption.
Qed.

Lemma complete_avoids a cfg svc choice p : pool_avoids a p -> pool_avoids a (complete cfg svc choice p).
Proof.
  intros (Hw & Hi & Hl). unfold complete.
  destruct (running p !! (choice mod length (running p))%nat) as [t|] eqn:Ht;
    [|repeat split; assumption].
  assert (Hta : task_section t <> a).
  { rewrite Forall_forall in Hi. apply Hi. eapply list_elem_of_lookup_2, Ht. }
  destruct (gen_section svc (task_section t) (task_attempt t)).
  - split; [exact Hw|]. split; simpl.
    + apply Forall_delete, Hi.
    + apply Forall_app. split; [exact Hl|]. apply Forall_singleton. discriminate.
  - destruct (task_attempt t <? section_retries cfg)%nat.
    + split; [exact Hw|]. split; simpl.
      * apply Forall_insert; [exact Hi|exact Hta].
      * apply Forall_app. split; [exact Hl|]. apply Forall_singleton. congruence.
    + split; [exact Hw|]. split; simpl; [apply Forall_delete, Hi|exact Hl].
Qed.

Lemma fan_out_nil cfg svc p : fan_out cfg svc [] p = fill_pool cfg p.
Proof. cbn [fan_out]. destruct (running (fill_pool cfg p)); reflexivity. Qed.

Lemma fan_out_cons cfg svc choice sched p :
  fan_out cfg svc (choice :: sched) p
  = match running (fill_pool cfg p) with
    | [] => fill_pool cfg p
    | _ :: _ => fan_out cfg svc sched (complete cfg svc choice (fill_pool cfg p))
    end.
Proof. reflexivity. Qed.

Lemma fan_out_avoids a cfg svc sched p : pool_avoids a p -> pool_avoids a (fan_out cfg svc sched p).
Proof.
  revert p. induction sched as [|choice sched IH]; intros p Hp.
  - rewrite fan_out_nil. apply fill_pool_avoids, Hp.
  - rewrite fan_out_cons.
    destruct (running (fill_pool cfg p)) eqn:Hr; [apply fill_pool_avoids, Hp|].
    apply IH, complete_avoids, fill_pool_avoids, Hp.
Qed.

Lemma remaining_avoids a o : Forall (fun i => i <> a) (remaining a o).
Proof.
  unfold remaining. apply Forall_forall. intros i Hi.
  apply list_elem_of_filter in Hi. tauto.
Qed.

Lemma stage_qc_shape svc c l :
  outline (context (stage_qc svc c l)) = outline c
  /\ exists tail, log (stage_qc svc c l) = l ++ tail /\ no_draft tail.
Proof.
  unfold stage_qc. destruct (gen_qc svc); simpl; (split; [reflexivity|]).
  - exists [Called QcFix; Published FFinal]. rewrite <- app_assoc. split; [reflexivity|].
    repeat constructor; discriminate.
  - exists [Called QcFix]. split; [reflexivity|]. repeat constructor; discriminate.
Qed.

Lemma no_draft_avoids a l : no_draft l -> Forall (fun e => e <> Called (Draft a)) l.
Proof. unfold no_draft. intros Hl. eapply Forall_impl; [exact Hl|]. intros e He. apply He. Qed.

Lemma stage_sections_shape cfg svc sched o c l :
  let j := stage_sections cfg svc sched o c l in
  outline (context j) = outline c
  /\ exists tail, log j = l ++ tail
                  /\ match select_anchor o with
                     | None => tail = []
                     | Some a => anchor_first a tail
                     end.
Proof.
  unfold stage_sections. destruct (select_anchor o) as [a|]; simpl;
    [|split; [reflexivity|]; exists []; rewrite app_nil_r; auto].
  destruct (draft_alone_log svc a 0 (section_retries cfg)) as [n Hn].
  destruct (draft_alone svc a 0 (section_retries cfg)) as [dl [html|]]; simpl in *; subst dl.
  2:{ split; [reflexivity|]. eexists. split; [reflexivity|].
      exists n, []. rewrite app_nil_r. auto. }
  set (p0 := {| pending := remaining a o; running := []; results := [];
                unrecoverable := []; pool_log := [] |}).
  assert (Hp : pool_avoids a (fan_out cfg svc sched p0)).
  { apply fan_out_avoids. split; [apply remaining_avoids|]. split; constructor. }
  destruct Hp as (_ & _ & Hlog).
  set (p := fan_out cfg svc sched p0) in *.
  assert (Hshape : forall tail, Forall (fun e => e <> Called (Draft a)) tail ->
            anchor_first a (replicate (S n) (Called (Draft a))
                              ++ Published FAnchor :: pool_log p ++ tail)).
  { intros tail Ht. exists n, (Published FAnchor :: pool_log p ++ tail).
    split; [reflexivity|]. right. eexists. split; [reflexivity|].
    apply Forall_app. auto. }
  assert (Hrun : forall s c',
            exists tail, log (job s c' (((l ++ replicate (S n) (Called (Draft a)))
                                           ++ [Published FAnchor]) ++ pool_log p))
                         = l ++ tail /\ anchor_first a tail).
  { intros s c'. eexists. split; [|apply (Hshape []); constructor].
    simpl. rewrite app_nil_r, <- !app_assoc. reflexivity. }
  destruct (pending p), (running p); try (split; [reflexivity|apply Hrun]).
  destruct (unrecoverable p); [|split; [reflexivity|apply Hrun]].
  match goal with |- context [stage_qc svc ?c' ?l'] =>
    destruct (stage_qc_shape svc c' l') as (Ho & tail & Hl & Hnd) end.
  split; [rewrite Ho; reflexivity|].
  eexists. split; [|apply (Hshape tail), no_draft_avoids, Hnd].
  rewrite Hl, <- !app_assoc. reflexivity.
Qed.

Lemma enforce_outline_count_spec cfg o0 :
  (outline_min cfg <= outline_max cfg)%nat ->
  ((length o0 < outline_min cfg)%nat -> enforce_outline_count cfg o0 = None)
  /\ ((outline_min cfg <= length o0)%nat ->
      enforce_outline_count cfg o0 = Some (take (outline_max cfg) o0)
      /\ (outline_min cfg <= length (take (outline_max cfg) o0) <= outline_max cfg)%nat).
Proof.
  intros Hcfg. unfold enforce_outline_count. split; intros Hlen.
  - apply Nat.ltb_lt in Hlen. rewrite Hlen. reflexivity.
  - assert (Hge : (length o0 <? outline_min cfg)%nat = false) by (apply Nat.ltb_ge; lia).
    rewrite Hge. split; [reflexivity|]. rewrite length_take. lia.
Qed.

(** What stages 3 to 6 add to the log and to the context. *)
Lemma stage_outline_shape cfg svc sched c l :
  let j := stage_outline cfg svc sched c l in
  match gen_outline svc with
  | None => status j = JobError /\ context j = c /\ log j = l ++ [Called Outline]
  | Some o0 =>
      if (length o0 <? outline_min cfg)%nat then
        status j = JobError /\ context j = c /\ log j = l ++ [Called Outline]
      else
        outline (context j) = Some (take (outline_max cfg) o0)
        /\ exists tail,
             log j = l ++ [Called Outline; Published FOutline; Called FirstPart] ++ tail
             /\ (tail = []
                 \/ exists tail', tail = Published FFrontMatter :: tail'
                      /\ match select_anchor (take (outline_max cfg) o0) with
                         | None => tail' = []
                         | Some a => anchor_first a tail'
                         end)
  end.
Proof.
  unfold stage_outline. destruct (gen_outline svc) as [o0|]; [|simpl; auto].
  unfold enforce_outline_count. destruct (length o0 <? outline_min cfg)%nat; [simpl; auto|].
  destruct (gen_first_part svc) as [fm|].
  - match goal with |- context [stage_sections cfg svc sched ?o ?c' ?l'] =>
      destruct (stage_sections_shape cfg svc sched o c' l') as (Ho & tail & Hl & Hshape) end.
    split; [rewrite Ho; reflexivity|].
    exists (Published FFrontMatter :: tail). split.
    + rewrite Hl, <- !app_assoc. reflexivity.
    + right. exists tail. auto.
  - split; [reflexivity|]. exists []. split; [|left; reflexivity].
    simpl. rewrite <- !app_assoc. reflexivity.
Qed.

(** Stages 1 and 2: the job fails there, or goes on to stage 3 with no
    outline yet. *)
Lemma run_pipeline_shape cfg svc sched :
  let j := run_pipeline cfg svc sched in
  exists l c,
    early l /\ outline c = None
    /\ ((status j = JobError /\ context j = c /\ log j = l ++ [Called Guidance])
        \/ (status j = JobError /\ context j = c /\ log j = l)
        \/ j = stage_outline cfg svc sched c l).
Proof.
  assert (Hnext : forall v l, early l ->
    let j := stage_guidance cfg svc sched (set_variables v empty_context)
               (l ++ [Published FVariables]) in
    exists l' c,
      early l' /\ outline c = None
      /\ ((status j = JobError /\ context j = c /\ log j = l' ++ [Called Guidance])
          \/ (status j = JobError /\ context j = c /\ log j = l')
          \/ j = stage_outline cfg svc sched c l')).
  { intros v l Hl. unfold stage_guidance. destruct (gen_guidance svc) as [g|].
    - exists (((l ++ [Published FVariables]) ++ [Called Guidance]) ++ [Published FGuidance]),
             (set_guidance g (set_variables v empty_context)).
      split.
      + unfold early. rewrite !Forall_app. repeat split; [exact Hl| | |];
          apply Forall_singleton; auto.
      + split; [reflexivity|]. right; right. reflexivity.
    - exists (l ++ [Published FVariables]), (set_variables v empty_context).
      split.
      + unfold early. rewrite Forall_app. split; [exact Hl|]. apply Forall_singleton; auto.
      + split; [reflexivity|]. left. simpl. auto. }
  unfold run_pipeline. destruct (gen_infer svc 0) as [v|].
  - apply Hnext. apply Forall_singleton; auto.
  - destruct (gen_infer svc 1) as [v|].
    + apply Hnext. repeat constructor; auto.
    + exists [Called Infer; Called Infer], empty_context.
      split; [repeat constructor; auto|]. split; [reflexivity|]. right; left. simpl. auto.
Qed.

Lemma early_not_in l e :
  early l ->
  e <> Called Infer -> e <> Published FVariables ->
  e <> Called Guidance -> e <> Published FGuidance ->
  e ∉ l.
Proof.
  intros Hl H1 H2 H3 H4 Hin. unfold early in Hl. rewrite Forall_forall in Hl.
  destruct (Hl e Hin) as [?|[?|[?|?]]]; contradiction.
Qed.

Lemma in_split_log {T : Type} (before after : list T) (e : T) l :
  l = before ++ e :: after -> e ∈ l.
Proof. intros ->. apply elem_of_app. right. left. Qed.

(** C3.  Wherever the log of a run shows the draft call of a section, the
    outline and the front matter were published before it.  If the section
    is the anchor, no other section's draft call was initiated before and
    the anchor is not yet published; if it is another section, the anchor
    was published before, and the anchor's own draft call was initiated
    before that publication.  This holds for every test double of the
    Generation Service and every schedule of the parallel tasks. *)
Theorem anchor_ordering_barrier cfg svc sched before i after :
  let j := run_pipeline cfg svc sched in
  log j = before ++ Called (Draft i) :: after ->
  exists o a,
    outline (context j) = Some o /\ select_anchor o = Some a
    /\ happened (Published FOutline) before
    /\ happened (Published FFrontMatter) before
    /\ (i = a ->
        ~ happened (Published FAnchor) before
        /\ forall i', happened (Called (Draft i')) before -> i' = a)
    /\ (i <> a ->
        exists b1 b2, before = b1 ++ Published FAnchor :: b2
                      /\ happened (Called (Draft a)) b1).
Proof.
  intros j Hsplit. unfold happened.
  pose proof (in_split_log _ _ _ _ Hsplit) as Hin.
  destruct (run_pipeline_shape cfg svc sched) as (l & c & Hl & Hc & Hcase).
  fold j in Hcase.
  assert (Hnl : Called (Draft i) ∉ l) by (apply early_not_in; [exact Hl|discriminate..]).
  destruct Hcase as [(_ & _ & Hlog)|[(_ & _ & Hlog)|Hj]].
  { rewrite Hlog in Hin. apply elem_of_app in Hin as [Hin|Hin]; [contradiction|].
    apply list_elem_of_singleton in Hin. discriminate. }
  { rewrite Hlog in Hin. contradiction. }
  pose proof (stage_outline_shape cfg svc sched c l) as Hshape.
  rewrite <- Hj in Hshape. simpl in Hshape.
  assert (Hfail : log j = l ++ [Called Outline] -> False).
  { intros Hlog. rewrite Hlog in Hin. apply elem_of_app in Hin as [Hin|Hin]; [contradiction|].
    apply list_elem_of_singleton in Hin. discriminate. }
  destruct (gen_outline svc) as [o0|]; [|destruct Hshape as (_ & _ & Hlog); tauto].
  destruct (length o0 <? outline_min cfg)%nat; [destruct Hshape as (_ & _ & Hlog); tauto|].
  destruct Hshape as (Ho & tail & Hlog & Htail).
  set (o := take (outline_max cfg) o0) in *.
  set (pre3 := l ++ [Called Outline; Published FOutline; Called FirstPart]) in *.
  assert (Hpre3 : Called (Draft i) ∉ pre3).
  { unfold pre3. rewrite not_elem_of_app. split; [exact Hnl|].
    rewrite !not_elem_of_cons. repeat split; try discriminate. apply not_elem_of_nil. }
  assert (Hlog' : log j = pre3 ++ tail) by (rewrite Hlog; unfold pre3; rewrite <- app_assoc; reflexivity).
  destruct Htail as [->|(tail' & -> & Hanchor)].
  { rewrite Hlog', app_nil_r in Hin. contradiction. }
  destruct (select_anchor o) as [a|] eqn:Ha.
  2:{ subst tail'. rewrite Hlog' in Hin. apply elem_of_app in Hin as [Hin|Hin]; [contradiction|].
      apply list_elem_of_singleton in Hin. discriminate. }
  destruct Hanchor as (n & rest & -> & Hrest).
  set (pre := pre3 ++ [Published FFrontMatter]).
  assert (Hlog4 : log j = pre ++ replicate (S n) (Called (Draft a)) ++ rest).
  { rewrite Hlog'. unfold pre. rewrite <- app_assoc. reflexivity. }
  assert (Hpre : Called (Draft i) ∉ pre).
  { unfold pre. rewrite not_elem_of_app. split; [exact Hpre3|].
    rewrite list_elem_of_singleton. discriminate. }
  rewrite Hlog4 in Hsplit.
  destruct (split_skip _ _ _ _ _ Hsplit Hpre) as (mid & -> & Hmid).
  assert (Hnd : forall k, Called (Draft k) ∉ pre).
  { intros k. unfold pre, pre3. rewrite !not_elem_of_app. repeat split.
    - apply early_not_in; [exact Hl|discriminate..].
    - rewrite !not_elem_of_cons. repeat split; try discriminate. apply not_elem_of_nil.
    - rewrite list_elem_of_singleton. discriminate. }
  assert (HnoPA : Published FAnchor ∉ pre).
  { unfold pre, pre3. rewrite !not_elem_of_app. repeat split.
    - apply early_not_in; [exact Hl|discriminate..].
    - rewrite !not_elem_of_cons. repeat split; try discriminate. apply not_elem_of_nil.
    - rewrite list_elem_of_singleton. discriminate. }
  assert (Hrest_a : Called (Draft a) ∉ rest).
  { destruct Hrest as [->|(rest' & -> & Hr)]; [apply not_elem_of_nil|].
    rewrite not_elem_of_cons. split; [discriminate|].
    rewrite Forall_forall in Hr. intros Hi. exact (Hr _ Hi eq_refl). }
  exists o, a. split; [exact Ho|]. split; [exact Ha|].
  split; [|split; [|split]].
  - apply elem_of_app. left. unfold pre, pre3. rewrite !elem_of_app, !elem_of_cons. tauto.
  - apply elem_of_app. left. unfold pre. rewrite elem_of_app, list_elem_of_singleton. tauto.
  - intros ->.
    apply app_eq_app in Hmid as [k [[Hrep Hk]|[Hm Hk]]].
    2:{ exfalso. apply Hrest_a. rewrite Hk. apply elem_of_app. right. left. }
    assert (Hmid_a : forall e, e ∈ mid -> e = Called (Draft a)).
    { intros e He. apply (elem_of_replicate_inv e (S n)). rewrite Hrep.
      apply elem_of_app. left. exact He. }
    split.
    + rewrite not_elem_of_app. split; [exact HnoPA|].
      intros Hpa. apply Hmid_a in Hpa. discriminate.
    + intros i' Hi'. apply elem_of_app in Hi' as [Hi'|Hi'].
      * exfalso. exact (Hnd i' Hi').
      * apply Hmid_a in Hi'. congruence.
  - intros Hia.
    assert (Hrep : Called (Draft i) ∉ replicate (S n) (Called (Draft a))).
    { intros Hi. apply elem_of_replicate_inv in Hi. congruence. }
    destruct (split_skip _ _ _ _ _ Hmid Hrep) as (mid' & -> & Hmid').
    destruct Hrest as [->|(rest' & -> & _)].
    { destruct mid'; discriminate. }
    destruct mid' as [|m mid']; [discriminate|]. injection Hmid' as <- _.
    exists (pre ++ replicate (S n) (Called (Draft a))), mid'.
    split; [rewrite <- app_assoc; reflexivity|].
    apply elem_of_app. right. left.
Qed.

(** C4.  The section count is enforced on the outline: an outline shorter
    than the minimum fails the job, nothing is published and stage 4 is
    not called; otherwise the outline is cut to its first
    [outline_max] sections, and that list, whose length is within the
    configured bounds, is what the context holds when stage 4 is called. *)
Theorem outline_count_is_enforced cfg svc sched :
  (outline_min cfg <= outline_max cfg)%nat ->
  let j := run_pipeline cfg svc sched in
  (forall o0, (length o0 < outline_min cfg)%nat -> enforce_outline_count cfg o0 = None)
  /\ (forall o0, (outline_min cfg <= length o0)%nat ->
        enforce_outline_count cfg o0 = Some (take (outline_max cfg) o0)
        /\ (outline_min cfg <= length (take (outline_max cfg) o0) <= outline_max cfg)%nat)
  /\ (forall before after, log j = before ++ Called FirstPart :: after ->
        happened (Published FOutline) before
        /\ exists o0, gen_outline svc = Some o0
             /\ outline (context j) = Some (take (outline_max cfg) o0)
             /\ (outline_min cfg <= length (take (outline_max cfg) o0) <= outline_max cfg)%nat)
  /\ (forall o0, gen_outline svc = Some o0 -> (length o0 < outline_min cfg)%nat ->
        status j = JobError
        /\ outline (context j) = None
        /\ ~ happened (Called FirstPart) (log j)
        /\ ~ happened (Published FOutline) (log j)).
Proof.
  intros Hcfg j. unfold happened.
  split; [intros o0; apply (enforce_outline_count_spec cfg o0 Hcfg)|].
  split; [intros o0; apply (enforce_outline_count_spec cfg o0 Hcfg)|].
  destruct (run_pipeline_shape cfg svc sched) as (l & c & Hl & Hc & Hcase).
  fold j in Hcase.
  assert (Hfp : Called FirstPart ∉ l) by (apply early_not_in; [exact Hl|discriminate..]).
  assert (Hpo : Published FOutline ∉ l) by (apply early_not_in; [exact Hl|discriminate..]).
  assert (Hone : forall e x, e ∉ l -> e <> x -> e ∉ l ++ [x]).
  { intros e x He Hx. rewrite not_elem_of_app, list_elem_of_singleton. tauto. }
  assert (Hstop : forall l',
            (l' = l) \/ (l' = l ++ [Called Guidance]) \/ (l' = l ++ [Called Outline]) ->
            (Called FirstPart ∉ l') /\ (Published FOutline ∉ l')).
  { intros l' [ -> | [ -> | -> ] ]; split; try assumption; apply Hone; try assumption; discriminate. }
  assert (Hearly : status j = JobError /\ context j = c
                   /\ ((log j = l) \/ (log j = l ++ [Called Guidance])
                       \/ (log j = l ++ [Called Outline])) ->
    (forall before after, log j = before ++ Called FirstPart :: after ->
        Published FOutline ∈ before
        /\ exists o0, gen_outline svc = Some o0
             /\ outline (context j) = Some (take (outline_max cfg) o0)
             /\ (outline_min cfg <= length (take (outline_max cfg) o0) <= outline_max cfg)%nat)
    /\ (forall o0, gen_outline svc = Some o0 -> (length o0 < outline_min cfg)%nat ->
        status j = JobError /\ outline (context j) = None
        /\ (Called FirstPart ∉ log j) /\ (Published FOutline ∉ log j))).
  { intros (Hs & Hctx & Hlog). destruct (Hstop _ Hlog) as [H1 H2]. split.
    - intros before after Hsplit. exfalso. apply H1. eapply in_split_log, Hsplit.
    - intros o0 _ _. rewrite Hctx. auto. }
  destruct Hcase as [(Hs & Hctx & Hlog)|[(Hs & Hctx & Hlog)|Hj]]; [apply Hearly; auto..|].
  pose proof (stage_outline_shape cfg svc sched c l) as Hshape.
  rewrite <- Hj in Hshape. simpl in Hshape.
  destruct (gen_outline svc) as [o0|] eqn:Hgen;
    [|apply Hearly; destruct Hshape as (? & ? & ?); auto].
  destruct (length o0 <? outline_min cfg)%nat eqn:Hlen;
    [apply Hearly; destruct Hshape as (? & ? & ?); auto|].
  apply Nat.ltb_ge in Hlen.
  destruct Hshape as (Ho & tail & Hlog & _). split.
  - intros before after Hsplit. split.
    + assert (Hlog2 : log j = (l ++ [Called Outline])
                               ++ Published FOutline :: Called FirstPart :: tail)
        by (rewrite Hlog, <- app_assoc; reflexivity).
      rewrite Hlog2 in Hsplit.
      destruct (split_skip _ _ _ _ _ Hsplit) as (mid & -> & Hmid);
        [apply Hone; [exact Hfp|discriminate]|].
      destruct mid as [|m mid]; [discriminate|]. injection Hmid as <- _.
      apply elem_of_app. right. left.
    + exists o0. split; [reflexivity|]. split; [exact Ho|].
      apply (enforce_outline_count_spec cfg o0 Hcfg). exact Hlen.
  - intros o0' [= <-] Hshort. lia.
Qed.

End OrchestratorProps.

(** C3, at the stub run: the log up to the first call of section 1. *)
Lemma anchor_ordering_witness :
  exists o a,
    Orchestrator.outline (Orchestrator.context demo_job) = Some o
    /\ Orchestrator.select_anchor o = Some a
    /\ Orchestrator.happened (Orchestrator.Published Orchestrator.FOutline) demo_before
    /\ Orchestrator.happened (Orchestrator.Published Orchestrator.FFrontMatter) demo_before
    /\ (1%nat = a ->
        ~ Orchestrator.happened (Orchestrator.Published Orchestrator.FAnchor) demo_before
        /\ forall i', Orchestrator.happened (Orchestrator.Called (Orchestrator.Draft i')) demo_before
                      -> i' = a)
    /\ (1%nat <> a ->
        exists b1 b2, demo_before = b1 ++ Orchestrator.Published Orchestrator.FAnchor :: b2
                      /\ Orchestrator.happened (Orchestrator.Called (Orchestrator.Draft a)) b1).
Proof.
  exact (OrchestratorProps.anchor_ordering_barrier
           (Orchestrator.spec_config 3 2) (Orchestrator.stub_service 12)
           [0; 1; 2; 0; 5; 1; 0; 0; 0; 3; 3; 3; 3; 3]%nat
           demo_before 1%nat demo_after eq_refl).
Defined.

(** C4, at the configured bounds 10 and 16 and an outline of 20 sections. *)
Lemma outline_count_witness :
  Orchestrator.enforce_outline_count (Orchestrator.spec_config 3 2) (Orchestrator.stub_outline 20)
  = Some (take 16 (Orchestrator.stub_outline 20))
  /\ (10 <= length (take 16 (Orchestrator.stub_outline 20)) <= 16)%nat.
Proof.
  exact (proj1 (proj2
    (OrchestratorProps.outline_count_is_enforced
       (Orchestrator.spec_config 3 2) (Orchestrator.stub_service 20) []
       ltac:(simpl; lia))) (Orchestrator.stub_outline 20) ltac:(vm_compute; lia)).
Defined.

(** * Further properties of the client *)

(** ** The word count *)

Lemma split_go_cons sep s : exists piece rest, split_go sep s = piece :: rest.
Proof.
  revert sep. induction s as [|c s IH]; intros sep; simpl; [eauto|].
  destruct (is_whitespace c).
  - destruct sep; [apply IH|eauto].
  - destruct (IH false) as (piece & rest & ->). eauto.
Qed.

Lemma length_split_go sep s :
  length (split_go sep s)
  = (word_starts sep s + (if sep then 0 else 1)
     + (if ends_in_whitespace sep s then 1 else 0))%nat.
Proof.
  revert sep. induction s as [|c s IH]; intros sep; simpl.
  - destruct sep; reflexivity.
  - destruct (is_whitespace c) eqn:Hc.
    + destruct sep; simpl; rewrite IH; lia.
    + destruct (split_go_cons false s) as (piece & rest & Hs).
      pose proof (IH false) as Hlen. rewrite Hs in *. simpl in *.
      destruct sep; lia.
Qed.

Lemma trimStart_split s :
  exists pre, s = pre ++ trimStart s /\ Forall (fun c => is_whitespace c = true) pre.
Proof.
  induction s as [|c s (pre & Hs & Hpre)]; simpl.
  - exists []. split; [reflexivity|constructor].
  - destruct (is_whitespace c) eqn:Hc.
    + exists (c :: pre). split; [simpl; congruence|constructor; assumption].
    + exists []. split; [reflexivity|constructor].
Qed.

Lemma trimStart_head s c r : trimStart s = c :: r -> is_whitespace c = false.
Proof.
  induction s as [|d s IH]; simpl; [discriminate|].
  destruct (is_whitespace d) eqn:Hd; [exact IH|]. intros [= <- _]. exact Hd.
Qed.

Lemma trimEnd_split s :
  exists suf, s = trimEnd s ++ suf /\ Forall (fun c => is_whitespace c = true) suf.
Proof.
  destruct (trimStart_split (rev s)) as (pre & Hs & Hpre).
  exists (rev pre). split.
  - unfold trimEnd. rewrite <- rev_app_distr, <- Hs, rev_involutive. reflexivity.
  - apply Forall_rev. exact Hpre.
Qed.

Lemma trimEnd_last s :
  trimEnd s = [] \/ exists r d, trimEnd s = r ++ [d] /\ is_whitespace d = false.
Proof.
  unfold trimEnd. destruct (trimStart (rev s)) as [|d q] eqn:Hq; [left; reflexivity|].
  right. exists (rev q), d. split; [reflexivity|]. exact (trimStart_head _ _ _ Hq).
Qed.

Lemma word_starts_skip b pre s :
  Forall (fun c => is_whitespace c = true) pre ->
  pre <> [] \/ b = true ->
  word_starts b (pre ++ s) = word_starts true s.
Proof.
  intros Hpre. revert b. induction Hpre as [|c pre Hc _ IH]; intros b Hb; simpl.
  - destruct Hb as [Hb| ->]; [contradiction|reflexivity].
  - rewrite Hc. apply IH. right. reflexivity.
Qed.

Lemma word_starts_blank b s :
  Forall (fun c => is_whitespace c = true) s -> word_starts b s = 0%nat.
Proof.
  intros Hs. revert b. induction Hs as [|c s Hc _ IH]; intros b; simpl; [reflexivity|].
  rewrite Hc. apply IH.
Qed.

Lemma word_starts_blank_end b s suf :
  Forall (fun c => is_whitespace c = true) suf ->
  word_starts b (s ++ suf) = word_starts b s.
Proof.
  intros Hsuf. revert b. induction s as [|c s IH]; intros b; simpl.
  - apply word_starts_blank, Hsuf.
  - destruct (is_whitespace c); rewrite IH; reflexivity.
Qed.

Lemma ends_in_whitespace_last b r d :
  ends_in_whitespace b (r ++ [d]) = is_whitespace d.
Proof. revert b. induction r as [|c r IH]; intros b; simpl; [reflexivity|apply IH]. Qed.

(** The trimmed text has the words of the text, and, unless it is empty,
    neither starts nor ends with whitespace. *)
Lemma trim_words s :
  word_starts true (trim s) = word_starts true s
  /\ (trim s = []
      \/ exists c r, trim s = c :: r /\ is_whitespace c = false
                     /\ ends_in_whitespace false (trim s) = false).
Proof.
  destruct (trimStart_split s) as (pre & Hs & Hpre).
  destruct (trimEnd_split (trimStart s)) as (suf & Hu & Hsuf).
  pose proof (trimEnd_last (trimStart s)) as Hlast.
  pose proof (trimStart_head s) as Hhead.
  unfold trim. remember (trimStart s) as u eqn:Hequ. clear Hequ.
  remember (trimEnd u) as t eqn:Heqt. clear Heqt.
  subst s u. split.
  - rewrite (word_starts_skip true pre) by auto.
    rewrite word_starts_blank_end by exact Hsuf. reflexivity.
  - destruct t as [|c t]; [left; reflexivity|]. right.
    exists c, t. split; [reflexivity|].
    split; [exact (Hhead c (t ++ suf) eq_refl)|].
    destruct Hlast as [Hl|(r & d & Hl & Hd)]; [discriminate|].
    rewrite Hl. apply (eq_trans (ends_in_whitespace_last false r d) Hd).
Qed.

Lemma word_starts_zero s :
  word_starts true s = 0%nat <-> forallb is_whitespace s = true.
Proof.
  split.
  - assert (H : forall b, word_starts b s = 0%nat -> b = true ->
                forallb is_whitespace s = true).
    { induction s as [|c s IH]; intros b H Hb; simpl in *; [reflexivity|].
      destruct (is_whitespace c); [apply (IH true); auto|]. subst b. discriminate. }
    intros H0. exact (H true H0 eq_refl).
  - intros H. apply word_starts_blank. apply Forall_forall. intros c Hc.
    rewrite forallb_forall in H. apply H. apply list_elem_of_In. exact Hc.
Qed.

Lemma truthy_trim s : truthy (trim s) = negb (forallb is_whitespace s).
Proof.
  destruct (forallb is_whitespace s) eqn:Hs.
  - rewrite (trim_blank s Hs). reflexivity.
  - destruct (trim_words s) as [Hw [Ht|(c & r & -> & _)]]; [|reflexivity].
    rewrite Ht in Hw. simpl in Hw. symmetry in Hw.
    apply word_starts_zero in Hw. congruence.
Qed.

(** X1.  [wordCount] is the number of words of the text that is left when
    every tag is replaced by a space: the maximal runs of code units that
    are not whitespace.  In particular it is 0 exactly when that text is
    empty or all whitespace. *)
Theorem wordCount_counts_words (html : jsstring) :
  wordCount html = word_starts true (strip_tags html)
  /\ (wordCount html = 0%nat <-> forallb is_whitespace (strip_tags html) = true).
Proof.
  assert (Hcount : forall s,
            (if truthy (trim s) then length (split_whitespace (trim s)) else 0%nat)
            = word_starts true s).
  { intros s. destruct (trim_words s) as [Hw [Ht|(c & r & Ht & Hc & He)]].
    - rewrite Ht in *. simpl in *. exact Hw.
    - rewrite <- Hw. unfold split_whitespace. rewrite length_split_go, He.
      rewrite Ht. simpl. rewrite Hc. lia. }
  unfold wordCount. cbv zeta. rewrite Hcount. split; [reflexivity|].
  apply word_starts_zero.
Qed.

(** ** Tags *)

Lemma find_gt_Some s a b :
  find_gt s = Some (a, b) -> s = a ++ 62 :: b /\ 62 ∉ a.
Proof.
  revert a b. induction s as [|c s IH]; intros a b; simpl; [discriminate|].
  destruct (c =? 62) eqn:Hc.
  - intros [= <- <-]. apply N.eqb_eq in Hc. subst c. split; [reflexivity|apply not_elem_of_nil].
  - destruct (find_gt s) as [[a' b']|]; [|discriminate]. intros [= <- <-].
    destruct (IH a' b' eq_refl) as [-> Ha]. split; [reflexivity|].
    apply not_elem_of_cons. split; [|exact Ha].
    apply N.eqb_neq in Hc. congruence.
Qed.

Lemma find_gt_app a b : 62 ∉ a -> find_gt (a ++ 62 :: b) = Some (a, b).
Proof.
  induction a as [|c a IH]; intros Ha; simpl; [reflexivity|].
  apply not_elem_of_cons in Ha as [Hc Ha].
  assert (Hne : (c =? 62) = false) by (apply N.eqb_neq; congruence).
  rewrite Hne, (IH Ha). reflexivity.
Qed.

Lemma find_gt_None s : 62 ∉ s -> find_gt s = None.
Proof.
  induction s as [|c s IH]; intros Hs; simpl; [reflexivity|].
  apply not_elem_of_cons in Hs as [Hc Hs].
  assert (Hne : (c =? 62) = false) by (apply N.eqb_neq; congruence).
  rewrite Hne, (IH Hs). reflexivity.
Qed.

(** Fuel beyond the length of the string changes nothing. *)
Lemma replace_tags_fuel n m s :
  (length s <= n)%nat -> (length s <= m)%nat -> replace_tags n s = replace_tags m s.
Proof.
  revert m s. induction n as [|n IH]; intros m s Hn Hm.
  - destruct s; [|simpl in Hn; lia]. destruct m; reflexivity.
  - destruct m as [|m]; [destruct s; [reflexivity|simpl in Hm; lia]|].
    destruct s as [|c s]; [reflexivity|]. simpl in Hn, Hm. simpl.
    assert (Hrest : replace_tags n s = replace_tags m s) by (apply IH; lia).
    destruct (c =? 60); [|rewrite Hrest; reflexivity].
    destruct (find_gt s) as [[[|d inside] rest]|] eqn:Hg; try (rewrite Hrest; reflexivity).
    apply find_gt_Some in Hg as [-> _]. rewrite length_app in Hn, Hm. simpl in Hn, Hm.
    rewrite (IH m rest) by lia. reflexivity.
Qed.

Lemma strip_tags_nil : strip_tags [] = [].
Proof. reflexivity. Qed.

Lemma strip_tags_cons c s :
  strip_tags (c :: s)
  = if (c =? 60) then
      match find_gt s with
      | Some (_ :: _, rest) => 32 :: strip_tags rest
      | _ => c :: strip_tags s
      end
    else c :: strip_tags s.
Proof.
  unfold strip_tags. simpl.
  destruct (c =? 60); [|reflexivity].
  destruct (find_gt s) as [[[|d inside] rest]|] eqn:Hg; try reflexivity.
  apply find_gt_Some in Hg as [-> _].
  rewrite (replace_tags_fuel (length ((d :: inside) ++ 62 :: rest)) (length rest) rest);
    [reflexivity| |lia].
  rewrite length_app. simpl. lia.
Qed.

Lemma strip_tags_text a s : 60 ∉ a -> strip_tags (a ++ s) = a ++ strip_tags s.
Proof.
  induction a as [|c a IH]; intros Ha; [reflexivity|].
  apply not_elem_of_cons in Ha as [Hc Ha]. simpl. rewrite strip_tags_cons.
  assert (Hne : (c =? 60) = false) by (apply N.eqb_neq; congruence).
  rewrite Hne, (IH Ha). reflexivity.
Qed.

Lemma strip_tags_unclosed s : 62 ∉ s -> strip_tags s = s.
Proof.
  induction s as [|c s IH]; intros Hs; [reflexivity|].
  pose proof Hs as Hs'. apply not_elem_of_cons in Hs' as [_ Hs'].
  rewrite strip_tags_cons, (find_gt_None s Hs'), (IH Hs').
  destruct (c =? 60); reflexivity.
Qed.

Lemma strip_tags_idempotent_upto n s :
  (length s <= n)%nat -> strip_tags (strip_tags s) = strip_tags s.
Proof.
  revert s. induction n as [|n IH]; intros s Hn.
  - destruct s; [reflexivity|simpl in Hn; lia].
  - destruct s as [|c s]; [reflexivity|]. simpl in Hn.
    rewrite (strip_tags_cons c s). destruct (c =? 60) eqn:Hc.
    + destruct (find_gt s) as [[[|d inside] rest]|] eqn:Hg.
      * apply find_gt_Some in Hg as [-> _]. simpl in Hn. simpl.
        rewrite (strip_tags_cons 62 rest). simpl.
        rewrite (strip_tags_cons c), Hc. simpl.
        rewrite (strip_tags_cons 62 (strip_tags rest)). simpl.
        rewrite (IH rest) by lia. reflexivity.
      * apply find_gt_Some in Hg as [-> _]. rewrite length_app in Hn. simpl in Hn.
        rewrite (strip_tags_cons 32). simpl. rewrite (IH rest) by lia. reflexivity.
      * assert (Hs : 62 ∉ s).
        { clear -Hg. induction s as [|x s IH]; [apply not_elem_of_nil|]. simpl in Hg.
          destruct (x =? 62) eqn:Hx; [discriminate|].
          destruct (find_gt s) as [[? ?]|]; [discriminate|].
          apply not_elem_of_cons. split; [apply N.eqb_neq in Hx; congruence|auto]. }
        rewrite (strip_tags_unclosed s Hs).
        rewrite strip_tags_cons, Hc, Hg, (strip_tags_unclosed s Hs). reflexivity.
    + rewrite strip_tags_cons, Hc, (IH s) by lia. reflexivity.
Qed.

Lemma strip_tags_tag a inside rest :
  60 ∉ a -> inside <> [] -> 62 ∉ inside ->
  strip_tags (a ++ 60 :: inside ++ 62 :: rest) = a ++ 32 :: strip_tags rest.
Proof.
  intros Ha Hin Hgt. rewrite (strip_tags_text a _ Ha), strip_tags_cons.
  simpl. rewrite (find_gt_app inside rest Hgt).
  destruct inside; [contradiction|reflexivity].
Qed.

Lemma strip_tags_empty_tag a rest :
  60 ∉ a -> strip_tags (a ++ 60 :: 62 :: rest) = a ++ 60 :: 62 :: strip_tags rest.
Proof.
  intros Ha. rewrite (strip_tags_text a _ Ha), strip_tags_cons. simpl.
  rewrite (strip_tags_cons 62 rest). reflexivity.
Qed.

Lemma strip_tags_open_end a rest :
  60 ∉ a -> 62 ∉ rest -> strip_tags (a ++ 60 :: rest) = a ++ 60 :: rest.
Proof.
  intros Ha Hr. rewrite (strip_tags_text a _ Ha), strip_tags_cons. simpl.
  rewrite (find_gt_None rest Hr), (strip_tags_unclosed rest Hr). reflexivity.
Qed.

Lemma strip_tags_no_lt s : 60 ∉ s -> strip_tags s = s.
Proof.
  intros Hs. rewrite <- (app_nil_r s) at 1. rewrite (strip_tags_text s [] Hs).
  rewrite strip_tags_nil, app_nil_r. reflexivity.
Qed.

(** The four equations of the theorem below leave no choice. *)
Lemma strip_tags_unique_upto (f : jsstring -> jsstring) n :
  (forall a inside rest,
     60 ∉ a -> inside <> [] -> 62 ∉ inside ->
     f (a ++ 60 :: inside ++ 62 :: rest) = a ++ 32 :: f rest) ->
  (forall a rest, 60 ∉ a -> f (a ++ 60 :: 62 :: rest) = a ++ 60 :: 62 :: f rest) ->
  (forall a rest, 60 ∉ a -> 62 ∉ rest -> f (a ++ 60 :: rest) = a ++ 60 :: rest) ->
  (forall s, 60 ∉ s -> f s = s) ->
  forall s, (length s <= n)%nat -> f s = strip_tags s.
Proof.
  intros Htag Hempty Hopen Htext. induction n as [|n IH]; intros s Hn.
  - destruct s; [|simpl in Hn; lia].
    rewrite Htext by apply not_elem_of_nil. reflexivity.
  - destruct (decide (60 ∈ s)) as [Hlt|Hlt].
    2:{ rewrite (Htext s Hlt), (strip_tags_no_lt s Hlt). reflexivity. }
    apply list_elem_of_split_l in Hlt as (a & t & -> & Ha).
    rewrite length_app in Hn. simpl in Hn.
    destruct (decide (62 ∈ t)) as [Hgt|Hgt].
    2:{ rewrite (Hopen a t Ha Hgt), (strip_tags_open_end a t Ha Hgt). reflexivity. }
    apply list_elem_of_split_l in Hgt as (inside & rest & -> & Hin).
    rewrite length_app in Hn. simpl in Hn.
    destruct inside as [|d inside].
    + simpl. rewrite (Hempty a rest Ha), (strip_tags_empty_tag a rest Ha).
      rewrite IH by lia. reflexivity.
    + rewrite (Htag a (d :: inside) rest Ha) by (discriminate || exact Hin).
      rewrite (strip_tags_tag a (d :: inside) rest Ha) by (discriminate || exact Hin).
      rewrite IH by (simpl in Hn; lia). reflexivity.
Qed.

(** X2.  How the tag pattern [<[^>]+>] acts on the HTML.  Text without
    ['<'] is copied.  Up to the first ['<'] the text is copied; a ['<']
    followed by at least one code unit and then the first ['>'] is one
    tag, replaced by one space whatever stands inside, another ['<']
    included, and the scan goes on behind it.  The two code units [<>]
    are no tag and stay, and the scan goes on behind them.  A ['<'] with
    no ['>'] anywhere after it is no tag either: it stays with all that
    follows it, whatever stands before it.  Every string is of one of
    these four forms, so the four equations determine the result: a
    function that satisfies them is this one.  One pass leaves no tag
    behind. *)
Theorem strip_tags_replaces_each_tag :
  (forall a inside rest,
     60 ∉ a -> inside <> [] -> 62 ∉ inside ->
     strip_tags (a ++ 60 :: inside ++ 62 :: rest) = a ++ 32 :: strip_tags rest)
  /\ (forall a rest,
        60 ∉ a ->
        strip_tags (a ++ 60 :: 62 :: rest) = a ++ 60 :: 62 :: strip_tags rest)
  /\ (forall a rest,
        60 ∉ a -> 62 ∉ rest ->
        strip_tags (a ++ 60 :: rest) = a ++ 60 :: rest)
  /\ (forall s, 60 ∉ s -> strip_tags s = s)
  /\ (forall s, 62 ∉ s -> strip_tags s = s)
  /\ (forall s,
        (60 ∉ s)
        \/ (exists a rest, s = a ++ 60 :: rest /\ (60 ∉ a) /\ (62 ∉ rest))
        \/ (exists a rest, s = a ++ 60 :: 62 :: rest /\ (60 ∉ a))
        \/ (exists a inside rest,
              s = a ++ 60 :: inside ++ 62 :: rest
              /\ (60 ∉ a) /\ inside <> [] /\ (62 ∉ inside)))
  /\ (forall f : jsstring -> jsstring,
        (forall a inside rest,
           60 ∉ a -> inside <> [] -> 62 ∉ inside ->
           f (a ++ 60 :: inside ++ 62 :: rest) = a ++ 32 :: f rest) ->
        (forall a rest, 60 ∉ a -> f (a ++ 60 :: 62 :: rest) = a ++ 60 :: 62 :: f rest) ->
        (forall a rest, 60 ∉ a -> 62 ∉ rest -> f (a ++ 60 :: rest) = a ++ 60 :: rest) ->
        (forall s, 60 ∉ s -> f s = s) ->
        forall s, f s = strip_tags s)
  /\ (forall s, strip_tags (strip_tags s) = strip_tags s).
Proof.
  split; [apply strip_tags_tag|]. split; [apply strip_tags_empty_tag|].
  split; [apply strip_tags_open_end|]. split; [apply strip_tags_no_lt|].
  split; [apply strip_tags_unclosed|]. split; [|split].
  - intros s. destruct (decide (60 ∈ s)) as [Hlt|Hlt]; [|left; exact Hlt].
    right. apply list_elem_of_split_l in Hlt as (a & t & -> & Ha).
    destruct (decide (62 ∈ t)) as [Hgt|Hgt]; [|left; exists a, t; auto].
    right. apply list_elem_of_split_l in Hgt as (inside & rest & -> & Hin).
    destruct inside as [|d inside]; [left; exists a, rest; auto|].
    right. exists a, (d :: inside), rest. repeat split; [exact Ha|discriminate|exact Hin].
  - intros f H1 H2 H3 H4 s.
    apply (strip_tags_unique_upto f (length s) H1 H2 H3 H4 s). lia.
  - intros s. apply (strip_tags_idempotent_upto (length s)). lia.
Qed.

(** ** The elapsed time *)

(** X3.  The seconds in the header are never negative and are 0 before a
    generation has started.  Once [finishedAt] is set they no longer
    depend on the clock; they are the duration from [startedAt] to
    [finishedAt], or to the clock while [finishedAt] is not set, rounded to
    the nearest second, and 0 when the end lies before the start. *)
Theorem elapsed_is_rounded_duration (startedAt finishedAt : option N) (now : N) :
  (0 <= elapsed startedAt finishedAt now)%Z
  /\ (truthy_time startedAt = false -> elapsed startedAt finishedAt now = 0%Z)
  /\ (truthy_time finishedAt = true ->
      forall now', elapsed startedAt finishedAt now' = elapsed startedAt finishedAt now)
  /\ (forall s e,
        startedAt = Some s -> s <> 0 ->
        (finishedAt = Some e /\ e <> 0) \/ (truthy_time finishedAt = false /\ e = now) ->
        (s <= e ->
         (Z.of_N e - Z.of_N s - 500 < 1000 * elapsed startedAt finishedAt now
          <= Z.of_N e - Z.of_N s + 500)%Z)
        /\ (e < s -> elapsed startedAt finishedAt now = 0%Z)).
Proof.
  assert (Hround : forall d : Z, (d - 500 < 1000 * ((d + 500) / 1000) <= d + 500)%Z).
  { intros d. pose proof (Z.div_mod (d + 500) 1000 ltac:(lia)).
    pose proof (Z.mod_pos_bound (d + 500) 1000 ltac:(lia)). lia. }
  split; [|split; [|split]].
  - unfold elapsed. destruct startedAt as [s|]; [|lia].
    destruct (s =? 0); [lia|]. apply Z.le_max_l.
  - unfold elapsed, truthy_time. destruct startedAt as [s|]; [|reflexivity].
    destruct (s =? 0); [reflexivity|discriminate].
  - unfold elapsed, truthy_time. intros Hf now'. destruct finishedAt as [f|]; [|discriminate].
    destruct (f =? 0); [discriminate|reflexivity].
  - intros s e -> Hs Hend. apply N.eqb_neq in Hs.
    assert (He : elapsed (Some s) finishedAt now
                 = Z.max 0 ((Z.of_N e - Z.of_N s + 500) / 1000)).
    { unfold elapsed. rewrite Hs.
      destruct Hend as [[-> He]|[Hf ->]].
      - apply N.eqb_neq in He. rewrite He. reflexivity.
      - unfold truthy_time in Hf. destruct finishedAt as [f|]; [|reflexivity].
        destruct (f =? 0); [reflexivity|discriminate]. }
    rewrite He. pose proof (Hround (Z.of_N e - Z.of_N s)%Z) as Hr. split.
    + intros Hle. assert (0 <= (Z.of_N e - Z.of_N s + 500) / 1000)%Z
        by (apply Z.div_pos; lia).
      rewrite Z.max_r by lia. lia.
    + intros Hlt. assert ((Z.of_N e - Z.of_N s + 500) / 1000 <= 0)%Z.
      { assert ((Z.of_N e - Z.of_N s + 500) / 1000 < 1)%Z; [|lia].
        apply Z.div_lt_upper_bound; lia. }
      lia.
Qed.

(** ** The download *)

Lemma truthy_false (s : jsstring) : truthy s = false <-> s = [].
Proof. destruct s; simpl; split; intros; congruence. Qed.

Lemma placeholderHTML_truthy : truthy placeholderHTML = true.
Proof. reflexivity. Qed.

(** X4.  The download button, the preview and [handleDownload] agree: with
    no HTML the preview shows the placeholder, the button is disabled and
    [handleDownload] does nothing; with HTML the preview shows it, the
    button is enabled and [handleDownload] hands over one file, the HTML
    between the fixed head and tail of the document, under a name made of
    the first 19 characters of the time stamp.  The HTML can be read back
    from the file: two states with the same file have the same HTML. *)
Theorem download_matches_preview (iso : jsstring) (s : AppState) :
  (html s = [] ->
     view_preview (render s) = placeholderHTML
     /\ view_download_disabled (render s) = true
     /\ handleDownload iso s = None)
  /\ (html s <> [] ->
        view_preview (render s) = html s
        /\ view_download_disabled (render s) = false
        /\ handleDownload iso s
           = Some {| file_content := document_head ++ html s ++ document_tail;
                     file_name := lit "contract-" ++ take 19 iso ++ lit ".html" |})
  /\ (forall iso' s' d,
        handleDownload iso s = Some d -> handleDownload iso' s' = Some d ->
        html s' = html s)
  /\ (forall d, handleDownload iso s = Some d -> (19 <= length iso)%nat ->
        length (file_name d) = 33%nat).
Proof.
  unfold handleDownload, render, Preview, Toolbar, js_or. simpl.
  split; [|split; [|split]].
  - intros ->. auto.
  - intros Hne. destruct (html s) as [|c h] eqn:Hh; [contradiction|]. simpl. auto.
  - intros iso' s' d. destruct (truthy (html s)); [|discriminate].
    destruct (truthy (html s')); [|discriminate]. simpl.
    intros [= <-] [= Hc _]. apply app_inv_tail in Hc. exact Hc.
  - intros d. destruct (truthy (html s)); [|discriminate]. simpl.
    intros [= <-] Hlen. simpl. rewrite !length_app, length_take.
    change (length (lit "contract-")) with 9%nat.
    change (length (lit ".html")) with 5%nat. lia.
Qed.

(** ** What the events of a stream do to the state *)

Lemma fire_client i ev now (w : World AppState) :
  handlers_ok (sources w) ->
  let s := client w in
  let s' := client (fire i ev now w) in
  prompt s' = prompt s /\ jobId s' = jobId s /\ startedAt s' = startedAt s
  /\ (html s' = html s
      \/ exists data, ev = EvMessage (lit "chunk") data /\ html s' = html s ++ data)
  /\ ((isGenerating s' = isGenerating s /\ finishedAt s' = finishedAt s)
      \/ (isGenerating s' = false /\ finishedAt s' = Some now)).
Proof.
  intros Hl. unfold fire. destruct (sources w !! i) as [e|] eqn:He; [|cbn; tauto].
  rewrite (Hl i e He).
  assert (Herr : forall data,
    let s' := client (es_onerror i stream_handlers now (on_error i stream_handlers data now w)) in
    prompt s' = prompt (client w) /\ jobId s' = jobId (client w)
    /\ startedAt s' = startedAt (client w)
    /\ html s' = html (client w)
    /\ ((isGenerating s' = isGenerating (client w) /\ finishedAt s' = finishedAt (client w))
        \/ (isGenerating s' = false /\ finishedAt s' = Some now))).
  { intros data. unfold es_onerror, on_error. cbn.
    destruct (finishedRef w) eqn:Hf; cbn; rewrite ?Hf; cbn; tauto. }
  destruct ev as [|fatal|type data]; cbn zeta.
  - cbn. tauto.
  - destruct (Herr None) as (? & ? & ? & ? & ?). tauto.
  - destruct (str_eqb type (lit "open")); [cbn; tauto|].
    destruct (str_eqb type (lit "chunk")) eqn:Hchunk.
    { apply str_eqb_eq in Hchunk. subst type. cbn. repeat split; try tauto.
      right. eexists. split; reflexivity. }
    destruct (str_eqb type (lit "done")); [cbn; tauto|].
    destruct (str_eqb type (lit "error")); [|cbn; tauto].
    destruct (Herr (Some data)) as (? & ? & ? & ? & ?). tauto.
Qed.

Lemma deliver_client i ev now p :
  page_ok p ->
  let s := state p in
  let s' := state (deliver i ev now p) in
  prompt s' = prompt s /\ jobId s' = jobId s /\ startedAt s' = startedAt s
  /\ (html s' = html s
      \/ exists data, ev = EvMessage (lit "chunk") data /\ html s' = html s ++ data)
  /\ ((isGenerating s' = isGenerating s /\ finishedAt s' = finishedAt s)
      \/ (isGenerating s' = false /\ finishedAt s' = Some now)).
Proof.
  intros [_ Hl]. unfold deliver, state. cbn. unfold dispatch.
  destruct (sources (hook p) !! i) as [e|]; [|tauto].
  destruct (es_closed e); [tauto|].
  destruct ev as [|[|]|type data]; try (apply fire_client; exact Hl).
  apply (fire_client i (EvError true) now (close i (hook p))).
  apply handlers_ok_close, Hl.
Qed.

Lemma deliver_network i ev now p : network (deliver i ev now p) = network p.
Proof. reflexivity. Qed.

(** ** Invariants of the page *)

Lemma handleGenerate_begin_cases url now p :
  let r := handleGenerate_begin url now p in
  hook r.1 = hook (set_state (fun _ => state r.1) p)
  /\ prompt (state r.1) = prompt (state p)
  /\ jobId (state r.1) = jobId (state p)
  /\ ((r.2 = false
       /\ truthy (trim (prompt (state p))) = false
       /\ network r.1 = network p
       /\ state r.1 = setError (Value (lit "Please describe the business context first."))
                               (state p))
      \/ (r.2 = true
          /\ truthy (trim (prompt (state p))) = true
          /\ network r.1 = createJob_send url (prompt (state p)) (network p)
          /\ html (state r.1) = [] /\ error (state r.1) = []
          /\ isGenerating (state r.1) = true
          /\ finishedAt (state r.1) = None
          /\ startedAt (state r.1) = Some now)).
Proof.
  unfold handleGenerate_begin.
  destruct (truthy (trim (prompt (state p)))); cbn; repeat split; tauto.
Qed.

Lemma state_with_es_start u h q : state (with_es (start u h) q) = state q.
Proof. unfold state, with_es. cbn [hook]. apply start_client. Qed.

Lemma state_with_es_stop q : state (with_es stop q) = state q.
Proof. unfold state, with_es. cbn [hook]. apply stop_client. Qed.

Lemma state_handleStop_resume net now p :
  state (handleStop_resume net now p)
  = setFinishedAt (Value (Some now)) (setIsGenerating (Value false) (state p)).
Proof.
  unfold handleStop_resume.
  destruct (stopJob_settle net); unfold state, set_state, with_es; cbn [hook client];
    rewrite stop_client; reflexivity.
Qed.

Lemma act_generating_ok url p a :
  page_ok p -> generating_ok (state p) -> generating_ok (state (act url p a)).
Proof.
  intros Hp Hg. unfold generating_ok in *.
  destruct a as [text|now|net now| |net now|es ev now]; cbn [act].
  - exact Hg.
  - destruct (handleGenerate_begin_cases url now p)
      as (_ & _ & _ & [(_ & _ & _ & ->)|(_ & _ & _ & _ & _ & _ & -> & ->)]);
      [exact Hg|]. intros _. split; [reflexivity|discriminate].
  - unfold handleGenerate_resume. destruct (createJob_settle net) as [body|err].
    + rewrite state_with_es_start. exact Hg.
    + rewrite state_with_es_stop. cbn. discriminate.
  - unfold handleStop_begin. destruct (jobId (state p)) as [j|]; [|exact Hg].
    destruct (negb (truthy j)); exact Hg.
  - assert (Hs : isGenerating (state (handleStop_resume net now p)) = false).
    { unfold handleStop_resume. destruct (stopJob_settle net); reflexivity. }
    rewrite Hs. discriminate.
  - destruct (deliver_client es ev now p Hp) as (_ & _ & Hst & _ & [[Hi Hf]|[Hi _]]).
    + rewrite Hi, Hf, Hst. exact Hg.
    + rewrite Hi. discriminate.
Qed.

Lemma acts_generating_ok url l p :
  page_ok p -> generating_ok (state p) -> generating_ok (state (acts url l p)).
Proof.
  revert p. induction l as [|a l IH]; intros p Hp Hg; [exact Hg|].
  rewrite acts_cons. apply IH; [apply page_ok_act, Hp|apply act_generating_ok; assumption].
Qed.

(** X5.  On every page that the component can reach, while it is
    generating no finish time is set and a start time is; so once a finish
    time is set the Stop button is disabled, the Generate button is
    enabled, and the header does not read [Streaming]. *)
Theorem generating_has_no_finish_time url prompt0 html0 actions :
  let s := state (acts url actions (mount prompt0 html0)) in
  (isGenerating s = true -> finishedAt s = None /\ startedAt s <> None)
  /\ (finishedAt s <> None ->
      stop_disabled (view_form (render s)) = true
      /\ generate_disabled (view_form (render s)) = false
      /\ view_status (render s) <> lit "Streaming" ++ [8230]).
Proof.
  intros s.
  assert (Hg : generating_ok s).
  { apply acts_generating_ok; [apply page_ok_mount|]. intros H. discriminate. }
  split; [exact Hg|]. intros Hf.
  destruct (isGenerating s) eqn:Hi.
  - destruct (Hg Hi) as [Hn _]. contradiction.
  - cbn. rewrite Hi. cbn. split; [reflexivity|]. split; [reflexivity|].
    destruct (truthy_time (finishedAt s)); discriminate.
Qed.

Lemma urls_alter_close i (l : list (EventSource AppState)) :
  es_url <$> alter close_es i l = es_url <$> l.
Proof.
  apply list_eq. intros j. rewrite !list_lookup_fmap.
  destruct (decide (i = j)) as [->|Hne].
  - rewrite list_lookup_alter_eq. destruct (l !! j); reflexivity.
  - rewrite list_lookup_alter_ne by assumption. reflexivity.
Qed.

Lemma dispatch_esRef_urls i ev now (w : World AppState) :
  (esRef (dispatch i ev now w) = esRef w \/ esRef (dispatch i ev now w) = None)
  /\ es_url <$> sources (dispatch i ev now w) = es_url <$> sources w.
Proof.
  unfold dispatch. destruct (sources w !! i) as [e|]; [|auto].
  destruct (es_closed e); [auto|].
  assert (Hfire : forall w' : World AppState,
            (esRef (fire i ev now w') = esRef w' \/ esRef (fire i ev now w') = None)
            /\ es_url <$> sources (fire i ev now w') = es_url <$> sources w').
  { intros w'. destruct (fire_refs i ev now w') as [(-> & -> & _)|(-> & -> & _)];
      [auto|]. split; [auto|apply urls_alter_close]. }
  destruct ev as [|[|]|type data]; try apply Hfire.
  destruct (Hfire (close i w)) as [Hr Hu]. split; [exact Hr|].
  rewrite Hu. apply urls_alter_close.
Qed.

Lemma streams_job_intro url p :
  (forall i, esRef (hook p) = Some i ->
     (es_url <$> sources (hook p)) !! i = Some (streamUrl url (jobId (state p)))) ->
  streams_job url p.
Proof.
  intros H i Hi. specialize (H i Hi). rewrite list_lookup_fmap in H.
  destruct (sources (hook p) !! i) as [e|]; [|discriminate].
  exists e. split; [reflexivity|]. injection H as ->. reflexivity.
Qed.

Lemma streams_job_elim url p i :
  streams_job url p -> esRef (hook p) = Some i ->
  (es_url <$> sources (hook p)) !! i = Some (streamUrl url (jobId (state p))).
Proof.
  intros H Hi. destruct (H i Hi) as (e & He & Hu).
  rewrite list_lookup_fmap, He. cbn. rewrite Hu. reflexivity.
Qed.

Lemma act_streams_job url p a :
  page_ok p -> streams_job url p -> streams_job url (act url p a).
Proof.
  intros Hp Hs.
  assert (Hstop : forall q, esRef (hook (with_es stop q)) = None)
    by (intros q; apply stop_esRef).
  destruct a as [text|now|net now| |net now|es ev now]; cbn [act].
  - exact Hs.
  - destruct (handleGenerate_begin_cases url now p) as (Hh & _ & Hj & _).
    apply streams_job_intro. intros i. rewrite Hh, Hj. cbn.
    apply (streams_job_elim url p i Hs).
  - unfold handleGenerate_resume. destruct (createJob_settle net) as [body|err].
    + apply streams_job_intro. intros i. rewrite state_with_es_start.
      cbn [hook with_es]. rewrite start_esRef. intros [= <-].
      rewrite list_lookup_fmap.
      rewrite (start_new_open _ _ (hook (set_state (setJobId (Value (body_jobId body))) p))).
      reflexivity.
    + intros i. cbn [hook with_es]. rewrite stop_esRef. discriminate.
  - unfold handleStop_begin. destruct (jobId (state p)) as [j|]; [|exact Hs].
    destruct (negb (truthy j)); exact Hs.
  - intros i. unfold handleStop_resume.
    destruct (stopJob_settle net); cbn [hook with_es set_state esRef];
      rewrite stop_esRef; discriminate.
  - destruct (deliver_client es ev now p Hp) as (_ & Hj & _).
    destruct (dispatch_esRef_urls es ev now (hook p)) as [Hr Hu].
    apply streams_job_intro. intros i. rewrite Hj. cbn. rewrite Hu.
    destruct Hr as [-> | ->]; [|discriminate].
    apply (streams_job_elim url p i Hs).
Qed.

Lemma acts_streams_job url l p :
  page_ok p -> streams_job url p -> streams_job url (acts url l p).
Proof.
  revert p. induction l as [|a l IH]; intros p Hp Hs; [exact Hs|].
  rewrite acts_cons. apply IH; [apply page_ok_act, Hp|apply act_streams_job; assumption].
Qed.

(** X6.  The stream that the page holds is always the stream of the job
    whose identifier is in its state: its URL is [streamUrl(jobId)].  So a
    click on Stop, which cancels the job in the state, cancels the job that
    is being streamed. *)
Theorem stop_cancels_the_streamed_job url prompt0 html0 actions i :
  let p := acts url actions (mount prompt0 html0) in
  esRef (hook p) = Some i ->
  exists e,
    sources (hook p) !! i = Some e
    /\ es_url e = streamUrl url (jobId (state p))
    /\ forall j, jobId (state p) = Some j -> truthy j = true ->
         es_url e = BACKEND_URL url ++ lit "/stream/" ++ j
         /\ network (handleStop_begin url p).1
            = network p ++ [ {| req_url := BACKEND_URL url ++ lit "/stop";
                                req_method := lit "POST";
                                req_headers := json_headers;
                                req_body := JsonJobId j |} ].
Proof.
  intros p Hi.
  assert (Hs : streams_job url p).
  { apply acts_streams_job; [apply page_ok_mount|]. intros k Hk. discriminate. }
  destruct (Hs i Hi) as (e & He & Hu). exists e. split; [exact He|]. split; [exact Hu|].
  intros j Hj Ht. split; [rewrite Hu, Hj; reflexivity|].
  unfold handleStop_begin. rewrite Hj, Ht. reflexivity.
Qed.

Lemma act_network url p a :
  network (act url p a) = network p
  \/ (is_click a = true
      /\ exists r, network (act url p a) = network p ++ [r] /\ api_request url r).
Proof.
  destruct a as [text|now|net now| |net now|es ev now]; cbn [act].
  - left. reflexivity.
  - destruct (handleGenerate_begin_cases url now p)
      as (_ & _ & _ & [(_ & _ & -> & _)|(_ & _ & -> & _)]); [left; reflexivity|].
    right. split; [reflexivity|]. eexists. split; [reflexivity|].
    split; [reflexivity|]. split; [reflexivity|]. left. split; [reflexivity|]. eauto.
  - left. unfold handleGenerate_resume. destruct (createJob_settle net); reflexivity.
  - unfold handleStop_begin. destruct (jobId (state p)) as [j|]; [|left; reflexivity].
    destruct (truthy j) eqn:Ht; [|left; reflexivity].
    right. split; [reflexivity|]. eexists. split; [reflexivity|].
    split; [reflexivity|]. split; [reflexivity|]. right. split; [reflexivity|]. eauto.
  - left. unfold handleStop_resume. destruct (stopJob_settle net); reflexivity.
  - left. reflexivity.
Qed.

Lemma acts_network url l p :
  Forall (api_request url) (network p) ->
  Forall (api_request url) (network (acts url l p))
  /\ (length (network (acts url l p))
      <= length (network p) + length (filter (fun a => is_click a = true) l))%nat.
Proof.
  revert p. induction l as [|a l IH]; intros p Hp; [split; [exact Hp|simpl; lia]|].
  rewrite acts_cons, filter_cons.
  destruct (act_network url p a) as [Hn|(Hc & r & Hn & Hr)].
  - destruct (IH (act url p a)) as [H1 H2]; [rewrite Hn; exact Hp|].
    split; [exact H1|]. rewrite Hn in H2.
    destruct (decide (is_click a = true)); simpl; lia.
  - destruct (IH (act url p a)) as [H1 H2].
    { rewrite Hn. apply Forall_app. split; [exact Hp|]. apply Forall_singleton, Hr. }
    split; [exact H1|]. rewrite Hn, length_app in H2. simpl in H2.
    destruct (decide (is_click a = true)); [simpl; lia|contradiction].
Qed.

Lemma stop_urls (w : World AppState) : es_url <$> sources (stop w) = es_url <$> sources w.
Proof.
  rewrite stop_sources. destruct (esRef w); [apply urls_alter_close|reflexivity].
Qed.

(** The EventSources of the page after an action: those before it, and
    the one that the action creates. *)
Lemma act_urls url p a :
  es_url <$> sources (hook (act url p a))
  = (es_url <$> sources (hook p)) ++ opened_stream url a.
Proof.
  destruct a as [text|now|net now| |net now|es ev now]; cbn [act opened_stream].
  - rewrite app_nil_r. reflexivity.
  - rewrite app_nil_r. destruct (handleGenerate_begin_cases url now p) as (-> & _).
    reflexivity.
  - unfold handleGenerate_resume. destruct (createJob_settle net) as [body|err];
      cbn [hook with_es].
    + rewrite start_sources, fmap_app, stop_urls. reflexivity.
    + rewrite app_nil_r, stop_urls. reflexivity.
  - rewrite app_nil_r. unfold handleStop_begin.
    destruct (jobId (state p)) as [j|]; [|reflexivity].
    destruct (negb (truthy j)); reflexivity.
  - rewrite app_nil_r. unfold handleStop_resume.
    destruct (stopJob_settle net); cbn [hook with_es set_state sources];
      rewrite stop_urls; reflexivity.
  - rewrite app_nil_r. apply dispatch_esRef_urls.
Qed.

Lemma acts_urls url l p :
  es_url <$> sources (hook (acts url l p))
  = (es_url <$> sources (hook p)) ++ flat_map (opened_stream url) l.
Proof.
  revert p. induction l as [|a l IH]; intros p; [cbn; rewrite app_nil_r; reflexivity|].
  rewrite acts_cons, IH, act_urls, <- app_assoc. reflexivity.
Qed.

(** X7.  The page calls [fetch] for nothing but the two requests of
    lib/api.js, a POST of JSON to [/generate] or to [/stop] of the
    backend, and at most once per click on a button: no event of a
    stream, no settled request and no typing makes it call [fetch], and no
    request is made again.  The only other connections are those of its
    EventSources, which the browser opens: the page has created one for
    each [createJob] that settled with a body, in that order, each on
    [streamUrl] of the job identifier of that body, and no other action
    creates one. *)
Theorem fetch_only_on_clicks url prompt0 html0 actions :
  let p := acts url actions (mount prompt0 html0) in
  Forall (api_request url) (network p)
  /\ (length (network p) <= length (filter (fun a => is_click a = true) actions))%nat
  /\ (forall a, is_click a = false -> network (act url p a) = network p)
  /\ es_url <$> sources (hook p) = flat_map (opened_stream url) actions
  /\ (forall a,
        es_url <$> sources (hook (act url p a))
        = (es_url <$> sources (hook p)) ++ opened_stream url a).
Proof.
  intros p.
  destruct (acts_network url actions (mount prompt0 html0)) as [H1 H2]; [constructor|].
  split; [exact H1|]. split; [exact H2|]. split.
  { intros a Ha. destruct (act_network url p a) as [Hn|(Hc & _)]; [exact Hn|congruence]. }
  split; [|apply act_urls].
  unfold p. rewrite acts_urls. reflexivity.
Qed.


(** X8.  The displayed HTML changes in two ways only: a click on Generate
    with a prompt that is not blank empties it, and a chunk event appends
    its payload.  Stopping, a failed or finished stream, an error and a
    settled request leave what was streamed so far. *)
Theorem html_changes_only_by_chunks url prompt0 html0 actions a :
  let p := acts url actions (mount prompt0 html0) in
  let p' := act url p a in
  html (state p') = html (state p)
  \/ (exists now, a = GenerateClicked now
                  /\ forallb is_whitespace (prompt (state p)) = false
                  /\ html (state p') = [])
  \/ (exists es data now, a = StreamEvent es (EvMessage (lit "chunk") data) now
                          /\ html (state p') = html (state p) ++ data).
Proof.
  intros p p'. assert (Hp : page_ok p) by apply page_ok_acts, page_ok_mount.
  unfold p'. destruct a as [text|now|net now| |net now|es ev now]; cbn [act].
  - left. reflexivity.
  - destruct (handleGenerate_begin_cases url now p)
      as (_ & _ & _ & [(_ & _ & _ & ->)|(_ & Ht & _ & Hh & _)]); [left; reflexivity|].
    right; left. exists now. split; [reflexivity|]. split; [|exact Hh].
    rewrite truthy_trim in Ht. apply negb_true_iff in Ht. exact Ht.
  - left. unfold handleGenerate_resume. destruct (createJob_settle net).
    + rewrite state_with_es_start. reflexivity.
    + rewrite state_with_es_stop. reflexivity.
  - left. unfold handleStop_begin. destruct (jobId (state p)) as [j|]; [|reflexivity].
    destruct (negb (truthy j)); reflexivity.
  - left. rewrite state_handleStop_resume. reflexivity.
  - destruct (deliver_client es ev now p Hp) as (_ & _ & _ & [Hh|(data & -> & Hh)] & _).
    + left. exact Hh.
    + right; right. exists es, data, now. auto.
Qed.

(** ** The finished flag and the open stream *)

Section LiveStream.

Context {A : Type}.
Implicit Types (w : World A).

Lemma all_closed_live w : all_closed w -> live w.
Proof. intros Hc i (e & He & Ho). rewrite (Hc i e He) in Ho. discriminate. Qed.

Lemma close_current_all_closed i w :
  tracked w -> esRef w = Some i ->
  forall k e, alter close_es i (sources w) !! k = Some e -> es_closed e = true.
Proof.
  intros [Hw _] Hr k e [[_ Hc]|[Hne He]]%lookup_close_es; [exact Hc|].
  destruct (es_closed e) eqn:Hc; [reflexivity|].
  specialize (Hw k e He Hc). congruence.
Qed.

Lemma fire_all_closed i ev now w : all_closed w -> all_closed (fire i ev now w).
Proof.
  intros Hc k e. destruct (fire_refs i ev now w) as [(_ & -> & _)|(_ & -> & _)]; [apply Hc|].
  intros [[_ He]|[_ He]]%lookup_close_es; [exact He|exact (Hc k e He)].
Qed.

Lemma start_live url h w : live (start url h w).
Proof. intros i _. reflexivity. Qed.

Lemma stop_live w : tracked w -> live (stop w).
Proof. intros Hw. apply all_closed_live, stop_all_closed, Hw. Qed.

Lemma dispatch_live i ev now w : tracked w -> live w -> live (dispatch i ev now w).
Proof.
  intros Hw Hl. unfold dispatch.
  destruct (sources w !! i) as [e|] eqn:He; [|exact Hl].
  destruct (es_closed e) eqn:Hc; [exact Hl|].
  pose proof (proj1 Hw i e He Hc) as Hr.
  assert (Hfire : live (fire i ev now w)).
  { destruct (fire_refs i ev now w) as [(_ & Hs & Hf)|(_ & Hs & _)].
    - intros k. unfold is_open. rewrite Hs, Hf. apply Hl.
    - apply all_closed_live. intros k x. rewrite Hs.
      apply (close_current_all_closed i w Hw Hr). }
  destruct ev as [|[|]|type data]; try exact Hfire.
  apply all_closed_live, fire_all_closed. intros k x. cbn.
  apply (close_current_all_closed i w Hw Hr).
Qed.

Lemma run_live ops w : tracked w -> live w -> live (run ops w).
Proof.
  revert w. induction ops as [|op ops IH]; intros w Hw Hl; [exact Hl|].
  cbn. apply IH; [apply run_op_tracked, Hw|].
  destruct op as [url h| |i ev now]; cbn.
  - apply start_live.
  - apply stop_live, Hw.
  - apply dispatch_live; assumption.
Qed.

Lemma initial_live (a : A) : live (initial a).
Proof. intros i (e & He & _). destruct i; discriminate. Qed.

(** What an error event adds to the log while the flag is not set. *)
Lemma fire_error_calls_live i e data now w :
  sources w !! i = Some e -> finishedRef w = false ->
  calls (es_onerror i (es_handlers e) now (on_error i (es_handlers e) data now w))
  = calls w
    ++ match h_error (es_handlers e) with
       | Some _ => [(i, CallError (js_or_opt data (lit "Streaming error")))]
       | None => []
       end
    ++ match h_onerror (es_handlers e) with
       | Some _ => [(i, CallOnerror)]
       | None => []
       end.
Proof.
  intros He Hf. unfold es_onerror, on_error.
  destruct (h_error (es_handlers e)), (h_onerror (es_handlers e));
    rewrite ?Hf; cbn; rewrite ?Hf; cbn; rewrite <- ?app_assoc, ?app_nil_r; reflexivity.
Qed.

(** X9.  While a stream is open the finished flag is not set, so an error
    of the open stream is never swallowed: an [error] event of the server
    and a connection error each call the [error] handler, with the data
    of the event or ['Streaming error'], and then the [onerror] handler,
    whichever of the two the caller has passed. *)
Theorem open_stream_reports_errors (a : A) (ops : list (Op A)) (i : nat) (e : EventSource A) :
  let w := run ops (initial a) in
  sources w !! i = Some e -> es_closed e = false ->
  finishedRef w = false
  /\ esRef w = Some i
  /\ forall now,
       let reported msg :=
         match h_error (es_handlers e) with
         | Some _ => [(i, CallError msg)]
         | None => []
         end
         ++ match h_onerror (es_handlers e) with
            | Some _ => [(i, CallOnerror)]
            | None => []
            end in
       (forall data,
          calls (dispatch i (EvMessage (lit "error") data) now w)
          = calls w ++ reported (js_or data (lit "Streaming error")))
       /\ calls (dispatch i (EvError false) now w)
          = calls w ++ reported (lit "Streaming error").
Proof.
  intros w He Hc.
  assert (Hw : tracked w) by apply run_tracked, initial_tracked.
  assert (Hl : live w) by (apply run_live; [apply initial_tracked|apply initial_live]).
  assert (Hf : finishedRef w = false) by (apply (Hl i); exists e; auto).
  split; [exact Hf|]. split; [exact (proj1 Hw i e He Hc)|].
  intros now reported. split.
  - intros data. unfold dispatch. rewrite He, Hc. unfold fire. rewrite He. cbn.
    apply (fire_error_calls_live i e (Some data) now w He Hf).
  - unfold dispatch. rewrite He, Hc. unfold fire. rewrite He.
    apply (fire_error_calls_live i e None now w He Hf).
Qed.

End LiveStream.

(** *** The ['done'] handler *)

Section DoneLast.
Context {A : Type}.
Implicit Types (w : World A) (op : Op A).

Lemma calls_of_app i j (cs : list Call) w w' :
  calls w' = calls w ++ ((fun c => (j, c)) <$> cs) ->
  calls_of i w' = calls_of i w ++ (if decide (j = i) then cs else []).
Proof.
  intros Hc. unfold calls_of. rewrite Hc, filter_app, fmap_app. f_equal.
  clear Hc. induction cs as [|c cs IH].
  - destruct (decide (j = i)); reflexivity.
  - rewrite fmap_cons, filter_cons. cbn. destruct (decide (j = i)) as [Hd|Hd].
    + rewrite fmap_cons. cbn. f_equal. exact IH.
    + exact IH.
Qed.

(** The calls that the listeners of an allocated EventSource make: a call
    of the ['done'] handler comes alone, and the EventSource is closed by
    then. *)
Lemma fire_done_calls i ev now w :
  is_Some (sources w !! i) ->
  exists cs, calls (fire i ev now w) = calls w ++ ((fun c => (i, c)) <$> cs)
             /\ (CallDone ∉ cs \/ (cs = [CallDone] /\ is_closed i (fire i ev now w))).
Proof.
  intros [e He]. unfold fire. rewrite He. set (h := es_handlers e).
  assert (Hopen : exists cs, calls (on_open i h now w) = calls w ++ ((fun c => (i, c)) <$> cs)
             /\ (CallDone ∉ cs \/ (cs = [CallDone] /\ is_closed i (on_open i h now w)))).
  { unfold on_open. destruct (h_open h).
    - exists [CallOpen]. split; [reflexivity|].
      left. intros Hin. apply list_elem_of_singleton in Hin. discriminate.
    - exists []. rewrite app_nil_r. split; [reflexivity|].
      left. intros Hin. apply elem_of_nil in Hin. contradiction. }
  assert (Herr : forall data, exists cs,
             calls (es_onerror i h now (on_error i h data now w))
             = calls w ++ ((fun c => (i, c)) <$> cs)
             /\ (CallDone ∉ cs
                 \/ (cs = [CallDone]
                     /\ is_closed i (es_onerror i h now (on_error i h data now w))))).
  { intros data. unfold es_onerror, on_error.
    destruct (finishedRef w) eqn:Hf.
    - exists []. destruct (h_error h); rewrite Hf, app_nil_r;
        (split; [reflexivity|]); left; intros Hin; apply elem_of_nil in Hin; contradiction.
    - destruct (h_error h) as [f|], (h_onerror h) as [g|]; cbn; rewrite ?Hf; cbn.
      + exists [CallError (js_or_opt data (lit "Streaming error")); CallOnerror].
        rewrite <- app_assoc. split; [reflexivity|].
        left. intros Hin. rewrite !elem_of_cons in Hin.
        destruct Hin as [Hin|[Hin|Hin]]; try discriminate.
        apply elem_of_nil in Hin. contradiction.
      + exists [CallError (js_or_opt data (lit "Streaming error"))].
        split; [reflexivity|].
        left. intros Hin. apply list_elem_of_singleton in Hin. discriminate.
      + exists [CallOnerror]. split; [reflexivity|].
        left. intros Hin. apply list_elem_of_singleton in Hin. discriminate.
      + exists []. rewrite app_nil_r. split; [reflexivity|].
        left. intros Hin. apply elem_of_nil in Hin. contradiction. }
  destruct ev as [|fatal|type data]; [exact Hopen|apply Herr|].
  destruct (str_eqb type (lit "open")); [exact Hopen|].
  destruct (str_eqb type (lit "chunk")).
  { unfold on_chunk. destruct (h_chunk h).
    - exists [CallChunk data]. split; [reflexivity|].
      left. intros Hin. apply list_elem_of_singleton in Hin. discriminate.
    - exists []. rewrite app_nil_r. split; [reflexivity|].
      left. intros Hin. apply elem_of_nil in Hin. contradiction. }
  destruct (str_eqb type (lit "done")).
  { unfold on_done. destruct (h_done h).
    - exists [CallDone]. split; [reflexivity|]. right. split; [reflexivity|].
      apply alter_close_closes. apply lookup_lt_is_Some_1. exists e. exact He.
    - exists []. cbn. rewrite app_nil_r. split; [reflexivity|].
      left. intros Hin. apply elem_of_nil in Hin. contradiction. }
  destruct (str_eqb type (lit "error")); [apply Herr|].
  exists []. rewrite app_nil_r. split; [reflexivity|].
  left. intros Hin. apply elem_of_nil in Hin. contradiction.
Qed.

Lemma dispatch_done_calls i ev now w :
  exists cs, calls (dispatch i ev now w) = calls w ++ ((fun c => (i, c)) <$> cs)
             /\ (cs <> [] -> is_open i w)
             /\ (CallDone ∉ cs \/ (cs = [CallDone] /\ is_closed i (dispatch i ev now w))).
Proof.
  unfold dispatch. destruct (sources w !! i) as [e|] eqn:He.
  2:{ exists []. rewrite app_nil_r. split; [reflexivity|]. split; [congruence|].
      left. intros Hin. apply elem_of_nil in Hin. contradiction. }
  destruct (es_closed e) eqn:Hc.
  { exists []. rewrite app_nil_r. split; [reflexivity|]. split; [congruence|].
    left. intros Hin. apply elem_of_nil in Hin. contradiction. }
  assert (Ho : is_open i w) by (exists e; auto).
  assert (Hfire : forall w', calls w' = calls w -> is_Some (sources w' !! i) ->
            exists cs, calls (fire i ev now w') = calls w ++ ((fun c => (i, c)) <$> cs)
              /\ (cs <> [] -> is_open i w)
              /\ (CallDone ∉ cs \/ (cs = [CallDone] /\ is_closed i (fire i ev now w')))).
  { intros w' Hcalls Hs. destruct (fire_done_calls i ev now w' Hs) as (cs & H1 & H2).
    exists cs. rewrite <- Hcalls. auto. }
  destruct ev as [|[|]|type data].
  - apply Hfire; [reflexivity|exists e; exact He].
  - apply Hfire; [reflexivity|].
    exists (close_es e). cbn. rewrite list_lookup_alter_eq, He. reflexivity.
  - apply Hfire; [reflexivity|exists e; exact He].
  - apply Hfire; [reflexivity|exists e; exact He].
Qed.

Lemma done_last_snoc (l : list Call) :
  CallDone ∉ l -> done_last (l ++ [CallDone]).
Proof.
  intros Hl l1 l2 Heq. destruct l2 as [|x l2 _] using rev_ind.
  - apply app_inj_tail in Heq as [-> _]. auto.
  - exfalso. rewrite app_comm_cons, app_assoc in Heq.
    apply app_inj_tail in Heq as [-> _]. apply Hl.
    apply elem_of_app. right. left.
Qed.

Lemma done_last_without (l : list Call) : CallDone ∉ l -> done_last l.
Proof.
  intros Hl l1 l2 ->. exfalso. apply Hl. apply elem_of_app. right. left.
Qed.

Lemma open_not_closed i w : is_open i w -> is_closed i w -> False.
Proof. intros (e & He & Ho) (e' & He' & Hc). congruence. Qed.

(** What holds of the log after every step. *)
Lemma run_op_done_last w op :
  (forall i, done_last (calls_of i w) /\ (CallDone ∈ calls_of i w -> is_closed i w)) ->
  forall i, done_last (calls_of i (run_op w op))
            /\ (CallDone ∈ calls_of i (run_op w op) -> is_closed i (run_op w op)).
Proof.
  intros Hw i. destruct (Hw i) as [Hl Hc].
  destruct op as [url h| |j ev now]; cbn [run_op].
  - unfold calls_of. rewrite start_calls. split; [exact Hl|].
    intros Hin. apply start_keeps_closed, Hc, Hin.
  - unfold calls_of. rewrite stop_calls. split; [exact Hl|].
    intros Hin. apply stop_keeps_closed, Hc, Hin.
  - destruct (dispatch_done_calls j ev now w) as (cs & Hcs & Hopen & Hdone).
    rewrite (calls_of_app i j cs w _ Hcs).
    destruct (decide (j = i)) as [->|Hne].
    2:{ rewrite app_nil_r. split; [exact Hl|].
        intros Hin. apply dispatch_keeps_closed, Hc, Hin. }
    destruct cs as [|c cs].
    { rewrite app_nil_r. split; [exact Hl|].
      intros Hin. apply dispatch_keeps_closed, Hc, Hin. }
    assert (Hno : CallDone ∉ calls_of i w).
    { intros Hin. apply (open_not_closed i w); [apply Hopen; discriminate|apply Hc, Hin]. }
    destruct Hdone as [Hnin|[Hone Hclosed]].
    + assert (Hnone : CallDone ∉ calls_of i w ++ c :: cs).
      { rewrite not_elem_of_app. auto. }
      split; [apply done_last_without, Hnone|]. intros Hin'. contradiction.
    + rewrite Hone. split; [|intros _; exact Hclosed].
      apply done_last_snoc, Hno.
Qed.

Lemma run_done_last ops w :
  (forall i, done_last (calls_of i w) /\ (CallDone ∈ calls_of i w -> is_closed i w)) ->
  forall i, done_last (calls_of i (run ops w))
            /\ (CallDone ∈ calls_of i (run ops w) -> is_closed i (run ops w)).
Proof.
  revert w. induction ops as [|op ops IH]; intros w Hw; [exact Hw|].
  cbn. apply IH, run_op_done_last, Hw.
Qed.

(** X13.  The [done] handler of a stream is called at most once, and it
    is the last of the handlers of that stream to be called: in the log of
    a run of the hook nothing follows a call of [done] for the same
    EventSource and none precedes it.  When it has been called the
    EventSource is closed and stays closed, and no handler is called for
    it any more. *)
Theorem done_handler_is_called_last (a : A) (ops : list (Op A)) (i : nat) :
  let w := run ops (initial a) in
  (forall before after,
     calls_of i w = before ++ CallDone :: after ->
     after = [] /\ CallDone ∉ before)
  /\ (CallDone ∈ calls_of i w ->
      is_closed i w
      /\ forall ops', is_closed i (run ops' w)
                      /\ calls_of i (run ops' w) = calls_of i w).
Proof.
  intros w.
  assert (H0 : forall i, done_last (calls_of i (initial a))
                         /\ (CallDone ∈ calls_of i (initial a) -> is_closed i (initial a))).
  { intros k. split; [apply done_last_without|]; cbn; try apply not_elem_of_nil.
    intros Hin. apply elem_of_nil in Hin. contradiction. }
  destruct (run_done_last ops (initial a) H0 i) as [Hl Hc]. fold w in Hl, Hc.
  split; [exact Hl|]. intros Hin. specialize (Hc Hin).
  split; [exact Hc|].
  intros ops'. split; [|apply run_calls_of_closed, Hc].
  revert Hc. generalize w. induction ops' as [|op ops' IH]; intros w0 Hc0; [exact Hc0|].
  cbn. apply IH, run_op_keeps_closed, Hc0.
Qed.

End DoneLast.

Lemma live_set_state f p : live (hook p) -> live (hook (set_state f p)).
Proof. intros H. exact H. Qed.

Lemma act_live url p a : page_ok p -> live (hook p) -> live (hook (act url p a)).
Proof.
  intros [Ht _] Hl. destruct a as [text|now|net now| |net now|es ev now]; cbn [act].
  - exact Hl.
  - destruct (handleGenerate_begin_cases url now p) as (-> & _). exact Hl.
  - unfold handleGenerate_resume. destruct (createJob_settle net) as [body|err].
    + apply start_live.
    + apply stop_live. exact Ht.
  - unfold handleStop_begin. destruct (jobId (state p)) as [j|]; [|exact Hl].
    destruct (negb (truthy j)); exact Hl.
  - unfold handleStop_resume.
    destruct (stopJob_settle net); apply live_set_state, live_set_state;
      apply stop_live; exact Ht.
  - apply dispatch_live; assumption.
Qed.

Lemma acts_live url l p : page_ok p -> live (hook p) -> live (hook (acts url l p)).
Proof.
  revert p. induction l as [|a l IH]; intros p Hp Hl; [exact Hl|].
  rewrite acts_cons. apply IH; [apply page_ok_act, Hp|apply act_live; assumption].
Qed.

Lemma js_or_truthy_r (a b : jsstring) : b <> [] -> js_or a b <> [].
Proof. intros Hb. destruct a; [exact Hb|discriminate]. Qed.

(** X10.  A connection error after which the browser reconnects is
    reported, and it ends the generation on the page: an error message is
    displayed, the finish time is set and the Stop button is disabled.  It
    does not close the stream: the EventSource stays open and stays the one
    the page holds, and a chunk that arrives afterwards is still appended
    to the displayed HTML. *)
Theorem connection_error_leaves_stream_open url prompt0 html0 actions i now :
  let p := acts url actions (mount prompt0 html0) in
  is_open i (hook p) ->
  let p' := deliver i (EvError false) now p in
  is_open i (hook p')
  /\ esRef (hook p') = Some i
  /\ error (state p') <> []
  /\ isGenerating (state p') = false
  /\ finishedAt (state p') = Some now
  /\ html (state p') = html (state p)
  /\ stop_disabled (view_form (render (state p'))) = true
  /\ forall data now',
       html (state (deliver i (EvMessage (lit "chunk") data) now' p'))
       = html (state p) ++ data.
Proof.
  intros p (e & He & Hc) p'.
  assert (Hp : page_ok p) by apply page_ok_acts, page_ok_mount.
  assert (Hl : live (hook p)).
  { apply acts_live; [apply page_ok_mount|apply initial_live]. }
  assert (Hf : finishedRef (hook p) = false) by (apply (Hl i); exists e; auto).
  pose proof (proj2 Hp i e He) as Hh.
  assert (Hhook : hook p'
                  = invoke i CallOnerror (onerror_handler now)
                      (invoke i (CallError (lit "Streaming error"))
                         (error_handler (Some (lit "Streaming error"))) (hook p))).
  { unfold p', deliver. cbn [hook with_es]. unfold dispatch. rewrite He, Hc.
    unfold fire. rewrite He, Hh. unfold es_onerror, on_error. cbn. rewrite Hf. cbn.
    rewrite Hf. reflexivity. }
  assert (He' : sources (hook p') !! i = Some e) by (rewrite Hhook; exact He).
  split; [exists e; auto|].
  split; [rewrite Hhook; cbn; exact (proj1 (proj1 Hp) i e He Hc)|].
  split; [unfold state; rewrite Hhook; cbn; apply js_or_truthy_r; discriminate|].
  split; [unfold state; rewrite Hhook; reflexivity|].
  split; [unfold state; rewrite Hhook; reflexivity|].
  assert (Hhtml : html (state p') = html (state p))
    by (unfold state; rewrite Hhook; reflexivity).
  split; [exact Hhtml|].
  split; [unfold state; rewrite Hhook; reflexivity|].
  intros data now'.
  destruct (deliver_chunks_append i [(data, now')] p' e He' Hc Hh) as [H1 _].
  cbn in H1. rewrite app_nil_r in H1. rewrite <- Hhtml. exact H1.
Qed.

(** X11.  [handleGenerate] goes on to create a job exactly when the prompt
    has a code unit that is not whitespace.  It then sends one request,
    which carries the prompt as it was typed, not trimmed, and leaves the
    stream manager alone: a stream that is still open stays open until the
    job is created. *)
Theorem generation_starts_iff_prompt_has_text url now p :
  let r := handleGenerate_begin url now p in
  r.2 = negb (forallb is_whitespace (prompt (state p)))
  /\ esRef (hook r.1) = esRef (hook p)
  /\ sources (hook r.1) = sources (hook p)
  /\ finishedRef (hook r.1) = finishedRef (hook p)
  /\ network r.1
     = if r.2
       then network p ++ [ {| req_url := BACKEND_URL url ++ lit "/generate";
                              req_method := lit "POST";
                              req_headers := json_headers;
                              req_body := JsonPrompt (prompt (state p)) |} ]
       else network p.
Proof.
  intros r. rewrite <- truthy_trim.
  destruct (handleGenerate_begin_cases url now p)
    as (Hh & _ & _ & [(H2 & Ht & Hn & _)|(H2 & Ht & Hn & _)]);
    fold r in Hh, H2, Hn; rewrite Hh, H2, Ht, Hn; cbn; auto.
Qed.

Lemma createJob_settle_Throw net e :
  createJob_settle net = Throw e <->
  net = Rejected e
  \/ exists res, net = Resolved res
       /\ ((res_ok res = false
            /\ e = new_Error (lit "Generate failed: " ++ decimal (res_status res)))
           \/ (res_ok res = true /\ res_json res = Throw e)).
Proof.
  unfold createJob_settle. destruct net as [e'|res].
  - split; [intros [= ->]; left; reflexivity|].
    intros [[= ->]|(res & [=] & _)]. reflexivity.
  - destruct (res_ok res) eqn:Hok; cbn.
    + split.
      * intros H. right. exists res. split; [reflexivity|]. right. auto.
      * intros [[=]|(res' & [= <-] & [[Hno _]|[_ H]])]; [congruence|exact H].
    + split.
      * intros [= <-]. right. exists res. split; [reflexivity|]. left. auto.
      * intros [[=]|(res' & [= <-] & [[_ ->]|[Hyes _]])]; [reflexivity|congruence].
Qed.

(** X12.  [createJob] fails in three ways: the request is rejected, the
    response is not ok, or its body is not JSON.  Whichever it is,
    [handleGenerate] then displays the message of the error (its name when
    the message is empty), ends the generation, closes whatever stream is
    open and stores no job identifier; the HTML and the requests sent stay
    as they are, and the Generate button is enabled again. *)
Theorem failed_job_creation_ends_generation url prompt0 html0 actions net now e :
  let p := acts url actions (mount prompt0 html0) in
  (net = Rejected e
   \/ exists res, net = Resolved res
        /\ ((res_ok res = false
             /\ e = new_Error (lit "Generate failed: " ++ decimal (res_status res)))
            \/ (res_ok res = true /\ res_json res = Throw e))) ->
  let p' := handleGenerate_resume url net now p in
  error (state p') = js_or (err_message e) (js_or (err_name e) (err_message e))
  /\ view_alert (render (state p')) = StatusBar (error (state p'))
  /\ isGenerating (state p') = false
  /\ generate_disabled (view_form (render (state p'))) = false
  /\ finishedAt (state p') = Some now
  /\ jobId (state p') = jobId (state p)
  /\ html (state p') = html (state p)
  /\ network p' = network p
  /\ esRef (hook p') = None
  /\ all_closed (hook p').
Proof.
  intros p Hfail p'. apply createJob_settle_Throw in Hfail.
  assert (Hp : page_ok p) by apply page_ok_acts, page_ok_mount.
  set (q := set_state (setFinishedAt (Value (Some now)))
              (set_state (setIsGenerating (Value false))
                 (set_state (setError (Value (js_or (err_message e) (String_of_error e)))) p))).
  assert (Hp' : p' = with_es stop q).
  { unfold p', handleGenerate_resume. rewrite Hfail. reflexivity. }
  assert (Hstate : state p' = state q) by (rewrite Hp'; apply state_with_es_stop).
  assert (Hmsg : js_or (err_message e) (String_of_error e)
                 = js_or (err_message e) (js_or (err_name e) (err_message e))).
  { unfold String_of_error, js_or.
    destruct (err_message e), (err_name e); reflexivity. }
  rewrite !Hstate. rewrite <- Hmsg.
  split; [reflexivity|]. split; [reflexivity|]. split; [reflexivity|].
  split; [reflexivity|]. split; [reflexivity|]. split; [reflexivity|].
  split; [reflexivity|]. split; [rewrite Hp'; reflexivity|].
  rewrite Hp'. cbn [hook with_es]. split; [apply stop_esRef|].
  apply (stop_all_closed (hook q)). exact (proj1 Hp).
Qed.

(** ** The extra properties, at the scenario *)

(** X6, at the page that streams the job of the scenario. *)
Lemma stop_cancels_witness :
  exists e,
    sources (hook streaming_page) !! 0%nat = Some e
    /\ es_url e = streamUrl None (jobId (state streaming_page))
    /\ forall j, jobId (state streaming_page) = Some j -> truthy j = true ->
         es_url e = BACKEND_URL None ++ lit "/stream/" ++ j
         /\ network (handleStop_begin None streaming_page).1
            = network streaming_page
              ++ [ {| req_url := BACKEND_URL None ++ lit "/stop";
                      req_method := lit "POST";
                      req_headers := json_headers;
                      req_body := JsonJobId j |} ].
Proof.
  exact (stop_cancels_the_streamed_job None
           (lit "NDA for a UK pilot between Provider and Customer") (lit "<p>old</p>")
           [GenerateClicked 1; CreateJobSettled demo_response 2] 0%nat eq_refl).
Defined.

(** X9, at a stream with both error handlers: a connection error calls
    both. *)
Lemma open_stream_reports_witness :
  calls (dispatch 0 (EvError false) 5
           (run [OpStart (lit "/stream/a") counting_errors] (initial 0%nat)))
  = [(0%nat, CallError (lit "Streaming error")); (0%nat, CallOnerror)].
Proof.
  exact (proj2 (proj2 (proj2
    (open_stream_reports_errors 0%nat [OpStart (lit "/stream/a") counting_errors] 0%nat
       (new_EventSource (lit "/stream/a") counting_errors) eq_refl eq_refl)) 5)).
Defined.

(** X10, at the page that streams the job of the scenario. *)
Lemma connection_error_witness :
  let p' := deliver 0 (EvError false) 9 streaming_page in
  is_open 0 (hook p')
  /\ esRef (hook p') = Some 0%nat
  /\ error (state p') <> []
  /\ isGenerating (state p') = false
  /\ finishedAt (state p') = Some 9
  /\ html (state p') = html (state streaming_page)
  /\ stop_disabled (view_form (render (state p'))) = true
  /\ forall data now',
       html (state (deliver 0 (EvMessage (lit "chunk") data) now' p'))
       = html (state streaming_page) ++ data.
Proof.
  apply (connection_error_leaves_stream_open None
           (lit "NDA for a UK pilot between Provider and Customer") (lit "<p>old</p>")
           [GenerateClicked 1; CreateJobSettled demo_response 2] 0%nat 9).
  eexists. split; reflexivity.
Defined.

(** X12, at a backend that cannot be reached. *)
Lemma failed_job_creation_witness :
  let p := acts None [GenerateClicked 1] demo_page in
  let p' := handleGenerate_resume None (Rejected failed_fetch) 2 p in
  error (state p')
  = js_or (err_message failed_fetch)
      (js_or (err_name failed_fetch) (err_message failed_fetch))
  /\ view_alert (render (state p')) = StatusBar (error (state p'))
  /\ isGenerating (state p') = false
  /\ generate_disabled (view_form (render (state p'))) = false
  /\ finishedAt (state p') = Some 2
  /\ jobId (state p') = jobId (state p)
  /\ html (state p') = html (state p)
  /\ network p' = network p
  /\ esRef (hook p') = None
  /\ all_closed (hook p').
Proof.
  exact (failed_job_creation_ends_generation None
           (lit "NDA for a UK pilot between Provider and Customer") (lit "<p>old</p>")
           [GenerateClicked 1] (Rejected failed_fetch) 2 failed_fetch
           (or_introl eq_refl)).
Defined.

(** A second ['done'] event and a late chunk reach no handler. *)
Example done_handler_runs_once :
  calls done_twice = [(0%nat, CallDone)] /\ client done_twice = 1%nat.
Proof. vm_compute. split; reflexivity. Qed.

(** The words of a fragment of a contract. *)
Example wordCount_of_fragment :
  wordCount (lit "<h1>NDA</h1><p>1. Scope of  the agreement</p>") = 6%nat.
Proof. vm_compute. reflexivity. Qed.

(** Half a second rounds up. *)
Example elapsed_rounds_half_up :
  elapsed (Some 1000) (Some 2500) 9000 = 2%Z /\ elapsed (Some 1000) (Some 2499) 9000 = 1%Z.
Proof. vm_compute. split; reflexivity. Qed.
